(** * SeedUp: resumable transfer orchestration

    A shallow embedding of the orchestration code of [torrent_downloader.py]
    (session persistence and the progress loop of [download_torrent]) and of
    [gdrive_uploader.py] (the recursive [upload_to_drive] of
    [SimpleDriveUploader]), with the properties of the design document
    stated and settled against it.

    Conventions of the embedding.
    - Python code that mutates objects or the outside world is a function of
      an explicit state; code that can raise returns a [result], and the state
      reached when the exception left the call is kept.
    - The transfer engine (libtorrent), the remote store (the Drive API) and
      the MIME table are collaborators: they are parameters of the sections
      below, so every theorem holds whatever they answer.
    - Python floats are taken as exact rationals ([Q]). *)

From Stdlib Require Import ZArith NArith QArith Qround Lia Bool.
From Stdlib Require Import String Ascii DecimalString.
From stdpp Require Import base option list strings gmap.

Close Scope Q_scope.
Local Open Scope string_scope.
Local Open Scope list_scope.

(** ** Exceptions and the state-and-exception monad *)

(** The subclasses of Python's [Exception] that the two modules tell apart
    in their [except] clauses; [OtherError] stands for every other one. *)
Inductive exn : Type :=
| OSError
| RuntimeError
| ValueError
| HttpError
| OtherError.

Inductive result (A : Type) : Type :=
| Ok (a : A)
| Raise (e : exn).
Arguments Ok {A} a.
Arguments Raise {A} e.

(** A computation over a state [S]: the answer or the exception raised,
    and the state left behind in both cases. *)
Definition M (S A : Type) : Type := S -> result A * S.

Definition ret {S A} (a : A) : M S A := fun s => (Ok a, s).

Definition raise {S A} (e : exn) : M S A := fun s => (Raise e, s).

Definition bind {S A B} (m : M S A) (k : A -> M S B) : M S B :=
  fun s =>
    match m s with
    | (Ok a, s') => k a s'
    | (Raise e, s') => (Raise e, s')
    end.

(** [try: body except e if catches e: handler e]. *)
Definition try_except {S A} (body : M S A) (catches : exn -> bool)
    (handler : exn -> M S A) : M S A :=
  fun s =>
    match body s with
    | (Ok a, s') => (Ok a, s')
    | (Raise e, s') => if catches e then handler e s' else (Raise e, s')
    end.

Definition gets {S A} (f : S -> A) : M S A := fun s => (Ok (f s), s).
Definition modify {S} (f : S -> S) : M S unit := fun s => (Ok tt, f s).
Definition lift {S A} (r : result A) : M S A := fun s => (r, s).

Notation "'let*' x ':=' m 'in' k" := (bind m (fun x => k))
  (at level 10, x name, m at level 100, k at level 200).

(** [except Exception] catches every member of [exn]. *)
Definition any_exception (e : exn) : bool := true.

(** Truthiness of an [Optional[str]]: [None] and the empty string are false. *)
Definition truthy (o : option string) : bool :=
  match o with
  | Some s => negb (String.eqb s "")
  | None => false
  end.

(** [str(n)] of a Python int, as an f-string renders it. *)
Definition str_of_Z (z : Z) : string := NilZero.string_of_int (Z.to_int z).

(** [os.path.join] and [os.path.basename] of [posixpath], for two
    components. *)
Definition starts_with_slash (s : string) : bool :=
  match s with
  | String c _ => Ascii.eqb c "/"
  | EmptyString => false
  end.

Fixpoint ends_with_slash (s : string) : bool :=
  match s with
  | EmptyString => false
  | String c EmptyString => Ascii.eqb c "/"
  | String _ r => ends_with_slash r
  end.

Definition path_join (a b : string) : string :=
  if starts_with_slash b then b
  else if String.eqb a "" || ends_with_slash a then a ++ b
  else a ++ "/" ++ b.

Fixpoint basename_from (acc p : string) : string :=
  match p with
  | EmptyString => acc
  | String c r =>
      if Ascii.eqb c "/" then basename_from "" r
      else basename_from (acc ++ String c "") r
  end.

Definition basename (p : string) : string := basename_from "" p.

(** ** torrent_downloader.py *)

Module Downloader.

(** The local file system as the session code sees it: a path is absent,
    a regular file with its bytes, or a directory.  Access rights are not
    part of it: a regular file can be read, truncated and removed. *)
Inductive fs_entry : Type :=
| RegFile (data : list Byte.byte)
| Directory.

Inductive level : Type := DEBUG | INFO | WARNING | ERROR.

(** One line of the progress display: the label and the ETA of the tick. *)
Record display : Type := mk_display {
  label : string;
  eta : string
}.

Record world : Type := mk_world {
  fs : gmap string fs_entry;
  log : list (level * string);
  stdout : list display
}.

Definition set_fs (f : gmap string fs_entry) (w : world) : world :=
  mk_world f (log w) (stdout w).

Definition logger (l : level) (msg : string) : M world unit :=
  modify (fun w => mk_world (fs w) (log w ++ [(l, msg)]) (stdout w)).

Definition print (d : display) : M world unit :=
  modify (fun w => mk_world (fs w) (log w) (stdout w ++ [d])).

(** [os.path.exists]. *)
Definition path_exists (p : string) : M world bool :=
  gets (fun w => bool_decide (is_Some (fs w !! p))).

(** [open(p, "rb")] followed by [f.read()]: a directory or a missing path
    raises [OSError]. *)
Definition read_file (p : string) : M world (list Byte.byte) :=
  fun w =>
    match fs w !! p with
    | Some (RegFile data) => (Ok data, w)
    | Some Directory => (Raise OSError, w)
    | None => (Raise OSError, w)
    end.

(** [open(p, "wb")]: creates the file or truncates it; a directory raises
    [OSError]. *)
Definition open_wb (p : string) : M world unit :=
  fun w =>
    match fs w !! p with
    | Some Directory => (Raise OSError, w)
    | _ => (Ok tt, set_fs (<[p := RegFile []]> (fs w)) w)
    end.

(** [os.remove]: only a regular file can be removed. *)
Definition os_remove (p : string) : M world unit :=
  fun w =>
    match fs w !! p with
    | Some (RegFile _) => (Ok tt, set_fs (delete p (fs w)) w)
    | Some Directory => (Raise OSError, w)
    | None => (Raise OSError, w)
    end.

Section Session.

(** libtorrent: the session object, the bencoded entry, and the four
    calls the module makes.  [bdecode] and [load_state] fail with
    [RuntimeError], the exception the bindings raise; [save_state] and
    [bencode] may raise anything. *)
Context {session entry : Type}.
Variable lt_session : session.
Variable save_state : session -> result entry.
Variable bencode : entry -> result (list Byte.byte).
Variable bdecode : list Byte.byte -> option entry.
Variable load_state : session -> entry -> option session.

(** Whether the operating system accepts the bytes written to an open
    file (it refuses when the disk is full, for instance). *)
Variable disk_accepts : string -> list Byte.byte -> bool.

(** [f.write(data)] on the file opened at [p]. *)
Definition write_file (p : string) (data : list Byte.byte) : M world unit :=
  fun w =>
    if disk_accepts p data
    then (Ok tt, set_fs (<[p := RegFile data]> (fs w)) w)
    else (Raise OSError, w).

Definition save_session (ses : session) (session_file : string)
    : M world unit :=
  try_except
    (let* _ := open_wb session_file in
     let* session_state := lift (save_state ses) in
     let* data := lift (bencode session_state) in
     let* _ := write_file session_file data in
     logger DEBUG "Session saved")
    any_exception
    (fun _ => logger ERROR "Failed to save session").

Definition catches_load (e : exn) : bool :=
  match e with
  | RuntimeError | ValueError => true
  | _ => false
  end.

Definition of_option {A} (e : exn) (o : option A) : M world A :=
  match o with
  | Some a => ret a
  | None => raise e
  end.

Definition load_session (session_file : string) : M world session :=
  let* present := path_exists session_file in
  if (present : bool) then
    let* loaded :=
      try_except
        (let* session_data := read_file session_file in
         let* _ := match session_data with
                   | [] => raise ValueError
                   | _ => ret tt
                   end in
         let* session_state := of_option RuntimeError (bdecode session_data) in
         let* ses :=
           of_option RuntimeError (load_state lt_session session_state) in
         let* _ := logger INFO "Session loaded" in
         ret (Some ses))
        catches_load
        (fun _ =>
           let* _ := logger WARNING "Failed to load session. Starting fresh." in
           let* _ := os_remove session_file in
           ret None) in
    match loaded with
    | Some ses => ret ses
    | None => ret lt_session
    end
  else ret lt_session.

(** The session a session file's bytes decode to, when they do: the
    file is not empty, [bdecode] accepts it, and [load_state] accepts
    what it gave. *)
Definition decoded (session_data : list Byte.byte) : option session :=
  match session_data with
  | [] => None
  | _ =>
      match bdecode session_data with
      | Some session_state => load_state lt_session session_state
      | None => None
      end
  end.

(** [get_download_status]. *)
Definition get_download_status (session_file : string) : M world bool :=
  path_exists session_file.

Definition clear_session (session_file : string) : M world bool :=
  let* present := path_exists session_file in
  if (present : bool) then
    try_except
      (let* _ := os_remove session_file in
       let* _ := logger INFO "Session file cleared" in
       ret true)
      any_exception
      (fun _ => let* _ := logger ERROR "Failed to clear session" in ret false)
  else ret true.

(** *** The progress loop of [download_torrent] *)

Inductive torrent_state : Type :=
| checking_files
| downloading_metadata
| downloading
| finished
| seeding
| checking_resume_data.

Definition is_seeding (st : torrent_state) : bool :=
  match st with seeding => true | _ => false end.

(** [lt.torrent_status], the fields the loop reads. *)
Record torrent_status : Type := mk_status {
  has_metadata : bool;
  name : string;
  state : torrent_state;
  progress : Q;
  download_rate : Z;
  total_wanted : Z;
  total_done : Z;
  num_seeds : Z;
  num_peers : Z
}.

Definition Qltb (x y : Q) : bool := negb (Qle_bool y x).

(** [int(x)] of a float: truncation toward zero. *)
Definition py_int (x : Q) : Z :=
  if Qle_bool 0 x then Qfloor x else Qceiling x.

(** [x % m] of floats, for a positive [m]. *)
Definition py_mod (x m : Q) : Q :=
  (x - m * inject_Z (Qfloor (x / m)))%Q.

(** Lines 143-158: the ETA of one tick. *)
Definition eta_str (s : torrent_status) : string :=
  if (0 <? download_rate s)%Z then
    let total_size := total_wanted s in
    let downloaded := total_done s in
    let remaining := (total_size - downloaded)%Z in
    let eta_seconds := (inject_Z remaining / inject_Z (download_rate s))%Q in
    if Qltb eta_seconds 60 then
      str_of_Z (py_int eta_seconds) ++ "s"
    else if Qltb eta_seconds 3600 then
      str_of_Z (py_int (eta_seconds / 60)) ++ "m "
        ++ str_of_Z (py_int (py_mod eta_seconds 60)) ++ "s"
    else
      let hours := py_int (eta_seconds / 3600) in
      let minutes := py_int (py_mod eta_seconds 3600 / 60) in
      str_of_Z hours ++ "h " ++ str_of_Z minutes ++ "m"
  else "N/A".

(** Lines 171-178: the label of one tick and the new value of
    [is_resuming]. *)
Definition phase_label (is_resuming : bool) (s : torrent_status)
    : string * bool :=
  let progress := (progress s * 100)%Q in
  if is_resuming && Qltb progress 95 then
    ("Resuming Download", is_resuming)
  else if (download_rate s =? 0)%Z && (num_peers s =? 0)%Z then
    ("Connecting to Peers", is_resuming)
  else
    ("Download Progress", false).

(** What one iteration of the [while] loop observes: the status read by
    the loop condition, the status read by the body, the wall clock
    [int(time.time())], and the session object as it is then. *)
Record tick : Type := mk_tick {
  polled : torrent_status;
  snapshot : torrent_status;
  clock : Z;
  engine : session
}.

Inductive loop_end : Type :=
| Seeding            (* the loop condition became false *)
| KeyboardInterrupt. (* the user stopped the run *)

(** Lines 139-190.  The feed lists the iterations the run goes through;
    when it is exhausted the user interrupts the run. *)
Fixpoint progress_loop (session_file : string) (feed : list tick)
    (is_resuming : bool) : M world loop_end :=
  match feed with
  | [] => ret KeyboardInterrupt
  | t :: rest =>
      if is_seeding (state (polled t)) then ret Seeding
      else
        let s := snapshot t in
        let eta_s := eta_str s in
        let lr := phase_label is_resuming s in
        let* _ := print (mk_display (fst lr) eta_s) in
        let* _ :=
          if (clock t mod 10 =? 0)%Z
          then save_session (engine t) session_file
          else ret tt in
        progress_loop session_file rest (snd lr)
  end.

(** Lines 138-212: the loop with its two exits.  [ses] is the session
    object when the run ends. *)
Definition monitor (download_path torrent_name session_file : string)
    (feed : list tick) (ses : session) (is_resuming : bool)
    : M world (option string) :=
  let* e := progress_loop session_file feed is_resuming in
  match e with
  | KeyboardInterrupt =>
      let* _ := logger WARNING "Download paused by user. Session saved for resume." in
      let* _ := save_session ses session_file in
      ret None
  | Seeding =>
      let* _ := logger INFO "Download complete!" in
      let* present := path_exists session_file in
      let* _ :=
        if (present : bool) then
          try_except
            (let* _ := os_remove session_file in
             logger DEBUG "Session file removed after successful download")
            any_exception
            (fun _ => logger WARNING "Could not remove session file")
        else ret tt in
      ret (Some (path_join download_path torrent_name))
  end.

(** The lines a run displays, as a function of the feed alone. *)
Fixpoint displayed (feed : list tick) (is_resuming : bool) : list display :=
  match feed with
  | [] => []
  | t :: rest =>
      if is_seeding (state (polled t)) then []
      else
        let lr := phase_label is_resuming (snapshot t) in
        mk_display (fst lr) (eta_str (snapshot t)) :: displayed rest (snd lr)
  end.

End Session.

Arguments tick : clear implicits.

(** *** The rest of [download_torrent], and its callers in main.py *)

(** [config.TORRENT_SESSION_FILE], the default of [session_file]. *)
Definition TORRENT_SESSION_FILE : string := "torrent_session.json".

(** [s.startswith(prefix)] and [s.endswith(suffix)]. *)
Definition startswith (s prefix : string) : bool := String.prefix prefix s.

Definition endswith (s suffix : string) : bool :=
  (String.length suffix <=? String.length s)%nat
  && String.eqb
       (String.substring (String.length s - String.length suffix)
          (String.length suffix) s)
       suffix.

(** [os.makedirs] of a path that does not exist. *)
Definition makedirs (p : string) : M world unit :=
  modify (fun w => set_fs (<[p := Directory]> (fs w)) w).

(** How [download_torrent] ends: it returns, or the interrupt of the user
    arrives while it waits for the metadata, outside its [try], and leaves
    the function. *)
Inductive download_end : Type :=
| Returned (downloaded_path : option string)
| Interrupted.

Section Torrent.

Context {session entry info : Type}.
Variable lt_session : session.
Variable save_state : session -> result entry.
Variable bencode : entry -> result (list Byte.byte).
Variable bdecode : list Byte.byte -> option entry.
Variable load_state : session -> entry -> option session.
Variable disk_accepts : string -> list Byte.byte -> bool.

(** [ses.apply_settings] and [lt.torrent_info]. *)
Variable apply_settings : session -> session.
Variable torrent_info : entry -> result info.

(** [lt.add_torrent_params], the fields the function sets; the storage
    mode is always sparse. *)
Record add_torrent_params : Type := mk_params {
  save_path : string;
  url : option string;
  ti : option info
}.

(** [ses.add_torrent(params)]; the handle it gives is read through the
    statuses of the timeline. *)
Variable add_torrent : session -> add_torrent_params -> result unit.

(** What the handle shows during one call: the statuses polled while
    waiting for the metadata, the status that gives the name, the
    iterations of the progress loop, and the session when the run ends. *)
Record timeline : Type := mk_timeline {
  polls : list torrent_status;
  named : torrent_status;
  feed : list (tick session);
  final : session
}.

(** Lines 100-120: the source is a magnet link or a torrent file. *)
Definition torrent_source (source download_path : string)
    : M world (option add_torrent_params) :=
  if startswith source "magnet:" then
    let* _ := logger INFO "Adding magnet link" in
    ret (Some (mk_params download_path (Some source) None))
  else if endswith source ".torrent" then
    let* present := path_exists source in
    if (present : bool) then
      try_except
        (let* data := read_file source in
         let* torrent_data := of_option RuntimeError (bdecode data) in
         let* info := lift (torrent_info torrent_data) in
         let* _ := logger INFO "Adding torrent file" in
         ret (Some (mk_params download_path None (Some info))))
        any_exception
        (fun _ =>
           let* _ := logger ERROR "Failed to read torrent file" in
           ret None)
    else
      let* _ := logger ERROR "Torrent file not found" in
      ret None
  else
    let* _ :=
      logger ERROR "Invalid source. Provide a .torrent file or magnet link."
    in
    ret None.

(** Lines 79-81: the download directory is created when it is missing. *)
Definition ensure_directory (download_path : string) : M world unit :=
  let* present := path_exists download_path in
  if (present : bool) then ret tt
  else
    let* _ := makedirs download_path in
    logger INFO "Created download directory".

(** Lines 122-212: the torrent is added, the metadata is awaited, the loop
    runs.  The wait ends at the first poll that has the metadata; when no
    poll has it the user interrupts the wait. *)
Definition transfer (ses : session) (params : add_torrent_params)
    (download_path session_file : string) (t : timeline)
    (is_resuming : bool) : M world download_end :=
  let* added :=
    try_except
      (let* _ := lift (add_torrent ses params) in
       let* _ := logger INFO "Downloading to" in
       ret true)
      any_exception
      (fun _ =>
         let* _ := logger ERROR "Failed to add torrent" in
         ret false) in
  if (added : bool) then
    let* _ := logger INFO "Waiting for metadata..." in
    if existsb has_metadata (polls t) then
      let torrent_name := name (named t) in
      let* _ := logger INFO "Downloading" in
      let* downloaded_path :=
        monitor save_state bencode disk_accepts download_path torrent_name
          session_file (feed t) (final t) is_resuming in
      ret (Returned downloaded_path)
    else ret Interrupted
  else ret (Returned None).

(** [download_torrent(source, download_path, session_file, auto_resume)]. *)
Definition download_torrent (source download_path session_file : string)
    (auto_resume : bool) (t : timeline) : M world download_end :=
  let* _ := ensure_directory download_path in
  let* session_present := path_exists session_file in
  let is_resuming := auto_resume && session_present in
  let* ses :=
    if auto_resume
    then load_session lt_session bdecode load_state session_file
    else ret lt_session in
  let ses := apply_settings ses in
  let* params := torrent_source source download_path in
  match params with
  | None => ret (Returned None)
  | Some params =>
      transfer ses params download_path session_file t is_resuming
  end.

(** The ways a save fails once the file is open: the engine cannot give
    its state, or cannot encode it, or the write is refused. *)
Definition save_fails (ses : session) (p : string) : Prop :=
  (exists e, save_state ses = Raise e)
  \/ (exists st e, save_state ses = Ok st /\ bencode st = Raise e)
  \/ (exists st data,
        save_state ses = Ok st /\ bencode st = Ok data
        /\ disk_accepts p data = false).

(** Some iteration of the feed finds the torrent seeding. *)
Definition completes (feed : list (tick session)) : bool :=
  existsb (fun t => is_seeding (state (polled t))) feed.

End Torrent.

Arguments timeline : clear implicits.
Arguments mk_timeline {session} polls named feed final.

(** main.py: [handle_status] and [handle_clear], the exit codes. *)
Definition handle_status : M world Z :=
  let* paused := get_download_status TORRENT_SESSION_FILE in
  if (paused : bool) then ret 0%Z else ret 0%Z.

Definition handle_clear : M world Z :=
  let* cleared := clear_session TORRENT_SESSION_FILE in
  if (cleared : bool) then ret 0%Z else ret 1%Z.

End Downloader.

(** ** gdrive_uploader.py *)

Module Uploader.

(** What a local path denotes.  The tree is what [os.listdir] returns, in
    its order; an entry can be missing for [os.path.exists] (a dangling
    link), and it can exist and be neither a regular file nor a directory
    (a socket, a device).  A directory can be listed and the size of a
    file that exists can be read. *)
#[warnings="-register-all"]
Inductive fs_node : Type :=
| Missing
| File (size : N)
| Dir (items : list (string * fs_node))
| Special (size : N).

(** One entry of a [files().list] answer. *)
Record drive_file : Type := mk_drive_file {
  id : string;
  file_name : string;
  file_size : option N;
  mimeType : string
}.

(** The Drive service, as the three requests the uploader executes:
    - [files().list(q=query, pageSize=1).execute()], giving [files];
    - [files().create(body={name, folder MIME type, parents}).execute()],
      giving [folder.get('id')];
    - the resumable [files().create(body, media_body)] driven by
      [next_chunk] until it answers, giving [response.get('id')].
    Each acts on the remote state and may raise. *)
Record DriveService : Type := mk_service {
  drive : Type;
  files_list : string -> drive -> result (list drive_file) * drive;
  files_create_folder :
    string -> string -> drive -> result (option string) * drive;
  files_create_media :
    string -> string -> string -> string -> drive
    -> result (option string) * drive
}.

(** A [tqdm] bar. *)
Record tqdm : Type := mk_tqdm {
  total : N;
  n : N;
  postfix : string;
  closed : bool
}.

(** [bool(bar)].  The class defines [__bool__] ([tqdm/std.py]): when a
    total was given it answers [self.total > 0], so the bar of a job of
    zero bytes is false in [if _progress_bar:]. *)
Definition tqdm_bool (bar : tqdm) : bool := (0 <? total bar)%N.

Definition tqdm_update (k : N) (bar : tqdm) : tqdm :=
  mk_tqdm (total bar) (n bar + k) (postfix bar) (closed bar).

Definition tqdm_set_postfix_str (s : string) (bar : tqdm) : tqdm :=
  mk_tqdm (total bar) (n bar) s (closed bar).

Definition tqdm_close (bar : tqdm) : tqdm :=
  mk_tqdm (total bar) (n bar) (postfix bar) true.

(** The argument [_progress_bar] of a nested call refers to the one bar of
    the job, which lives in the job state. *)
Inductive tqdm_ref : Type := bar_of_job.

(** The instance attributes of [SimpleDriveUploader]. *)
Record SimpleDriveUploader : Type := mk_uploader {
  skip_existing : bool;
  use_seedup_folder : bool;
  seedup_folder_id : option string
}.

(** The dictionary [upload_to_drive] returns. *)
Record outcome : Type := mk_results {
  success : list string;
  failed : list string;
  skipped : list string;
  root_folder_id : string
}.

Definition append_success (p : string) (r : outcome) : outcome :=
  mk_results (success r ++ [p]) (failed r) (skipped r) (root_folder_id r).

Definition append_failed (p : string) (r : outcome) : outcome :=
  mk_results (success r) (failed r ++ [p]) (skipped r) (root_folder_id r).

Definition append_skipped (p : string) (r : outcome) : outcome :=
  mk_results (success r) (failed r) (skipped r ++ [p]) (root_folder_id r).

Definition set_root_folder_id (i : string) (r : outcome) : outcome :=
  mk_results (success r) (failed r) (skipped r) i.

(** The three [extend] calls that merge a child's lists. *)
Definition extend (r sub : outcome) : outcome :=
  mk_results (success r ++ success sub) (failed r ++ failed sub)
    (skipped r ++ skipped sub) (root_folder_id r).

(** A tree of regular files and directories only. *)
Fixpoint regular (node : fs_node) : bool :=
  match node with
  | File _ => true
  | Dir items => forallb (fun entry => regular (snd entry)) items
  | Missing | Special _ => false
  end.

(** The dictionary [count_items] returns. *)
Record stats : Type := mk_stats {
  files : N;
  folders : N;
  total_size : N
}.

Definition stats_add (a b : stats) : stats :=
  mk_stats (files a + files b) (folders a + folders b)
    (total_size a + total_size b).

(** [os.walk] from a directory: every directory met adds its
    sub-directories to [folders] and its other entries to [files]; an entry
    whose size cannot be read adds nothing to [total_size].  Anything but
    a directory yields nothing. *)
Fixpoint walk (node : fs_node) : stats :=
  match node with
  | Dir items =>
      (fix entries (l : list (string * fs_node)) : stats :=
         match l with
         | [] => mk_stats 0 0 0
         | (_, child) :: l' =>
             stats_add
               match child with
               | Dir _ => stats_add (mk_stats 0 1 0) (walk child)
               | File s | Special s => mk_stats 1 0 s
               | Missing => mk_stats 1 0 0
               end
               (entries l')
         end) items
  | _ => mk_stats 0 0 0
  end.

Definition count_items (node : fs_node) : stats :=
  match node with
  | File s => mk_stats 1 0 s
  | _ => walk node
  end.

(** [name.replace("'", "\\'")]. *)
Fixpoint escape_quotes (s : string) : string :=
  match s with
  | EmptyString => EmptyString
  | String c r =>
      if Ascii.eqb c "'"
      then String "\" (String "'" (escape_quotes r))
      else String c (escape_quotes r)
  end.

Definition file_query (file_name parent_id : string) : string :=
  "name='" ++ escape_quotes file_name ++ "' and '" ++ parent_id
    ++ "' in parents and trashed=false".

Definition folder_query (folder_name parent_id : string) : string :=
  "name='" ++ escape_quotes folder_name ++ "' and '" ++ parent_id
    ++ "' in parents and mimeType='application/vnd.google-apps.folder'"
    ++ " and trashed=false".

Section Upload.

Variable api : DriveService.

(** [mimetypes.guess_type]. *)
Variable guess_type : string -> option string.

(** The objects one upload job works on: the remote store, the bar, the
    two default-argument lists [_uploaded_size] and [_file_count], which
    every call shares, and the error log.  What the calls print is left
    out. *)
Record job : Type := mk_job {
  remote : drive api;
  progress_bar : tqdm;
  _uploaded_size : N;
  _file_count : N * N;
  errors : list string
}.

Definition on_remote {A} (f : drive api -> result A * drive api)
    : M job A :=
  fun j =>
    let (r, d) := f (remote j) in
    (r, mk_job d (progress_bar j) (_uploaded_size j) (_file_count j)
          (errors j)).

Definition logger_error (msg : string) : M job unit :=
  modify (fun j =>
    mk_job (remote j) (progress_bar j) (_uploaded_size j) (_file_count j)
      (errors j ++ [msg])).

Definition is_HttpError (e : exn) : bool :=
  match e with HttpError => true | _ => false end.

Definition file_exists (file_name parent_id : string)
    : M job (option drive_file) :=
  try_except
    (let query := file_query file_name parent_id in
     let* files := on_remote (files_list api query) in
     match files with
     | f :: _ => ret (Some f)
     | [] => ret None
     end)
    is_HttpError
    (fun _ =>
       let* _ := logger_error "Error checking if file exists" in
       ret None).

Definition folder_exists (folder_name parent_id : string)
    : M job (option string) :=
  try_except
    (let query := folder_query folder_name parent_id in
     let* folders := on_remote (files_list api query) in
     match folders with
     | f :: _ => ret (Some (id f))
     | [] => ret None
     end)
    is_HttpError
    (fun _ =>
       let* _ := logger_error "Error checking if folder exists" in
       ret None).

Definition upload_file (self : SimpleDriveUploader)
    (local_path parent_id : string) : M job (option string) :=
  let file_name := basename local_path in
  let* existing :=
    if skip_existing self then file_exists file_name parent_id
    else ret None in
  match existing with
  | Some f => ret (Some (id f))
  | None =>
      let mime_type :=
        if truthy (guess_type local_path)
        then default "" (guess_type local_path)
        else "application/octet-stream" in
      try_except
        (on_remote
           (files_create_media api local_path mime_type file_name
              parent_id))
        any_exception
        (fun e =>
           let* _ :=
             logger_error
               (if is_HttpError e then "HTTP error uploading"
                else "Unexpected error uploading") in
           ret None)
  end.

Definition create_folder (self : SimpleDriveUploader)
    (folder_name parent_id : string) : M job (option string) :=
  let* existing_id :=
    if skip_existing self then folder_exists folder_name parent_id
    else ret None in
  if truthy existing_id then ret existing_id
  else
    try_except
      (on_remote (files_create_folder api folder_name parent_id))
      any_exception
      (fun _ =>
         let* _ := logger_error "Error creating folder" in
         ret None).

(** Lines 374-397: what the first call does before it looks at the path.
    It answers the parent id to use from then on. *)
Definition start_progress (self : SimpleDriveUploader) (node : fs_node)
    (parent_id : string) : M job (string * N) :=
  fun j =>
    let parent_id :=
      if use_seedup_folder self && truthy (seedup_folder_id self)
      then default "" (seedup_folder_id self)
      else parent_id in
    let stats := count_items node in
    let _total_size := total_size stats in
    (Ok (parent_id, _total_size),
     mk_job (remote j) (mk_tqdm _total_size 0 "" false) 0
       (0%N, files stats) (errors j)).

(** Lines 408-412 and 421-425: [if _progress_bar: ...]. *)
Definition advance (file_size : N) : M job unit :=
  modify (fun j =>
    if tqdm_bool (progress_bar j) then
      let uploaded := (_uploaded_size j + file_size)%N in
      let current := (fst (_file_count j) + 1)%N in
      let total_files := snd (_file_count j) in
      let line : string :=
        ("Files: " ++ str_of_Z (Z.of_N current) ++ "/"
           ++ str_of_Z (Z.of_N total_files))%string in
      mk_job (remote j)
        (tqdm_update file_size (tqdm_set_postfix_str line (progress_bar j)))
        uploaded (current, total_files) (errors j)
    else j).

(** Lines 452-454 and 459-461:
    [if _progress_bar and _file_count[0] >= _file_count[1]: close]. *)
Definition close_when_done : M job unit :=
  modify (fun j =>
    if tqdm_bool (progress_bar j)
       && (snd (_file_count j) <=? fst (_file_count j))%N
    then
      mk_job (remote j) (tqdm_close (progress_bar j)) (_uploaded_size j)
        (_file_count j) (errors j)
    else j).

(** Lines 400-427: the file case. *)
Definition upload_leaf (self : SimpleDriveUploader) (local_path : string)
    (file_size : N) (parent_id : string) (results : outcome)
    : M job outcome :=
  let file_name := basename local_path in
  let* existing :=
    if skip_existing self then file_exists file_name parent_id
    else ret None in
  match existing with
  | Some _ =>
      let results := append_skipped local_path results in
      let* _ := advance file_size in
      ret results
  | None =>
      let* file_id := upload_file self local_path parent_id in
      let results :=
        if truthy file_id then append_success local_path results
        else append_failed local_path results in
      let* _ := advance file_size in
      ret results
  end.

(** Lines 374-397 again: the first call ([_progress_bar is None]) starts
    the progress tracking and may replace the parent id; a nested call
    keeps what it was given. *)
Definition enter (self : SimpleDriveUploader) (node : fs_node)
    (parent_id : string) (_progress_bar : option tqdm_ref)
    (_total_size : option N) : M job (string * option N) :=
  match _progress_bar with
  | None =>
      let* st := start_progress self node parent_id in
      ret (fst st, Some (snd st))
  | Some _ => ret (parent_id, _total_size)
  end.

(** Lines 440-445: [for item in os.listdir(local_path)], where [visit]
    is the recursive call.  The dictionary keeps what the children before
    an exception added to it. *)
Definition listing (local_path : string)
    (visit : string -> fs_node -> M job outcome)
    : list (string * fs_node) -> outcome -> job
      -> (outcome * option exn) * job :=
  fix listing l results j :=
    match l with
    | [] => ((results, None), j)
    | (item, child) :: l' =>
        let item_path := path_join local_path item in
        match visit item_path child j with
        | (Ok sub_results, j') => listing l' (extend results sub_results) j'
        | (Raise e, j') => ((results, Some e), j')
        end
    end.

(** Lines 439-447: the loop inside [try: ... except Exception]. *)
Definition try_listing (local_path : string)
    (visit : string -> fs_node -> M job outcome)
    (items : list (string * fs_node)) (results : outcome) : M job outcome :=
  fun j =>
    match listing local_path visit items results j with
    | ((results, None), j') => (Ok results, j')
    | ((results, Some _), j') =>
        (Ok (append_failed local_path results), j')
    end.

(** [upload_to_drive(local_path, parent_id, _progress_bar, _total_size)],
    where [node] is what [local_path] denotes. *)
Fixpoint upload_to_drive (self : SimpleDriveUploader) (local_path : string)
    (node : fs_node) (parent_id : string)
    (_progress_bar : option tqdm_ref) (_total_size : option N)
    {struct node} : M job outcome :=
  match node with
  | Missing =>
      ret (append_failed local_path (mk_results [] [] [] parent_id))
  | File file_size =>
      let* st := enter self node parent_id _progress_bar _total_size in
      let parent_id := fst st in
      upload_leaf self local_path file_size parent_id
        (mk_results [] [] [] parent_id)
  | Dir items =>
      let* st := enter self node parent_id _progress_bar _total_size in
      let parent_id := fst st in
      let _total_size := snd st in
      let results := mk_results [] [] [] parent_id in
      let folder_name := basename local_path in
      let* folder_id := create_folder self folder_name parent_id in
      let* results :=
        if truthy folder_id then
          let folder_id := default "" folder_id in
          let results := set_root_folder_id folder_id results in
          try_listing local_path
            (fun item_path child =>
               upload_to_drive self item_path child folder_id
                 (Some bar_of_job) _total_size)
            items results
        else ret (append_failed local_path results) in
      let* _ := close_when_done in
      ret results
  | Special _ =>
      let* st := enter self node parent_id _progress_bar _total_size in
      let parent_id := fst st in
      let* _ := close_when_done in
      ret (append_failed local_path (mk_results [] [] [] parent_id))
  end.

(** *** Vocabulary of the properties *)

(** The calls to the remote store leave the progress tracking alone. *)
Definition same_progress (j j' : job) : Prop :=
  progress_bar j' = progress_bar j
  /\ _uploaded_size j' = _uploaded_size j
  /\ _file_count j' = _file_count j.

Definition frames {A} (m : M job A) : Prop :=
  forall j r j', m j = (r, j') -> same_progress j j'.

(** The number of paths an outcome lists. *)
Definition counted (r : outcome) : N :=
  N.of_nat (length (success r) + length (failed r) + length (skipped r)).

(** [k] more files are complete in [j'] than in [j]. *)
Definition advanced (j j' : job) (k : N) : Prop :=
  total (progress_bar j') = total (progress_bar j)
  /\ snd (_file_count j') = snd (_file_count j)
  /\ fst (_file_count j') = (fst (_file_count j) + k)%N.

(** What a call does once [enter] has run. *)
Definition counts (self : SimpleDriveUploader) (node : fs_node) : Prop :=
  regular node = true ->
  forall local_path parent_id pb ts (j j0 : job) st,
    enter self node parent_id pb ts j = (Ok st, j0) ->
    tqdm_bool (progress_bar j0) = true ->
    exists r j',
      upload_to_drive self local_path node parent_id pb ts j = (Ok r, j')
      /\ counted r = files (count_items node)
      /\ advanced j0 j' (files (count_items node)).


End Upload.

Arguments job : clear implicits.
Arguments mk_job {api} remote progress_bar _uploaded_size _file_count errors.
Arguments remote {api} j.
Arguments progress_bar {api} j.
Arguments _uploaded_size {api} j.
Arguments _file_count {api} j.
Arguments errors {api} j.
Arguments same_progress {api} j j'.
Arguments frames api {A} m.
Arguments advanced {api} j j' k.

(** *** The rest of gdrive_uploader.py, and its caller in main.py *)

(** The files a call can complete: the regular files of the tree. *)
Fixpoint completable (node : fs_node) : N :=
  match node with
  | File _ => 1
  | Dir items =>
      (fix entries (l : list (string * fs_node)) : N :=
         match l with
         | [] => 0
         | (_, child) :: l' => completable child + entries l'
         end) items
  | Missing | Special _ => 0
  end%N.

(** The bytes of the regular files of the tree. *)
Fixpoint regular_bytes (node : fs_node) : N :=
  match node with
  | File size => size
  | Dir items =>
      (fix entries (l : list (string * fs_node)) : N :=
         match l with
         | [] => 0
         | (_, child) :: l' => regular_bytes child + entries l'
         end) items
  | Missing | Special _ => 0
  end%N.

(** Some entry listed in the tree is missing or is neither a file nor a
    directory. *)
Fixpoint has_irregular (node : fs_node) : bool :=
  match node with
  | Dir items =>
      existsb
        (fun entry =>
           match snd entry with
           | Missing | Special _ => true
           | _ => has_irregular (snd entry)
           end)
        items
  | _ => false
  end.

Definition is_missing (node : fs_node) : bool :=
  match node with Missing => true | _ => false end.

Definition seedup_query : string :=
  "name='SeedUp Downloads' and mimeType='application/vnd.google-apps.folder'"
    ++ " and trashed=false and 'root' in parents".

Section Account.

Variable api : DriveService.
Variable guess_type : string -> option string.

(** [IN_COLAB], what [auth.authenticate_user()] followed by
    [build('drive', 'v3')] does, and whether main.py can import the
    module. *)
Variable IN_COLAB : bool.
Variable authenticate_user : result unit.
Variable import_uploader : result unit.

(** [files().create(body={name, folder MIME type}).execute()], without
    parents, giving [folder.get('id')]. *)
Variable files_create_in_root :
  string -> drive api -> result (option string) * drive api.

(** From [j] to [j'] at most [k] more files are complete and at most [b]
    more bytes are counted, the bar has moved as the byte counter has, and
    it has been closed only with every file complete. *)
Definition progresses (j j' : job api) (k b : N) : Prop :=
  total (progress_bar j') = total (progress_bar j)
  /\ snd (_file_count j') = snd (_file_count j)
  /\ (fst (_file_count j) <= fst (_file_count j'))%N
  /\ (fst (_file_count j') <= fst (_file_count j) + k)%N
  /\ (_uploaded_size j <= _uploaded_size j')%N
  /\ (_uploaded_size j' <= _uploaded_size j + b)%N
  /\ (n (progress_bar j') + _uploaded_size j
      = n (progress_bar j) + _uploaded_size j')%N
  /\ (closed (progress_bar j') = true ->
      closed (progress_bar j) = true
      \/ (snd (_file_count j') <= fst (_file_count j'))%N).

(** A nested call on [node] completes at most the regular files of the
    tree and counts at most their bytes. *)
Definition nested_progresses (self : SimpleDriveUploader) (node : fs_node)
    : Prop :=
  forall local_path parent_id ts (j j' : job api) r,
    upload_to_drive api guess_type self local_path node parent_id
      (Some bar_of_job) ts j
    = (r, j') ->
    progresses j j' (completable node) (regular_bytes node).

(** A call on [node] returns an outcome that lists no skipped path. *)
Definition never_skips (self : SimpleDriveUploader) (node : fs_node) : Prop :=
  forall local_path parent_id pb ts (j : job api),
  exists r j',
    upload_to_drive api guess_type self local_path node parent_id pb ts j
    = (Ok r, j')
    /\ skipped r = [].

(** A call on a tree of files and directories returns an outcome that
    lists as many paths as the pre-scan counts files. *)
Definition accounts (self : SimpleDriveUploader) (node : fs_node) : Prop :=
  regular node = true ->
  forall local_path parent_id pb ts (j : job api),
  exists r j',
    upload_to_drive api guess_type self local_path node parent_id pb ts j
    = (Ok r, j')
    /\ counted r = files (count_items node).

Definition get_drive_service : M (job api) unit :=
  if IN_COLAB then
    try_except (lift authenticate_user) any_exception
      (fun _ => raise RuntimeError)
  else raise RuntimeError.

Definition get_or_create_seedup_folder : M (job api) (option string) :=
  try_except
    (let* folders := on_remote api (files_list api seedup_query) in
     match folders with
     | f :: _ => ret (Some (id f))
     | [] => on_remote api (files_create_in_root "SeedUp Downloads")
     end)
    any_exception
    (fun e =>
       let* _ :=
         logger_error api
           (if is_HttpError e
            then "Error getting/creating SeedUp Downloads folder"
            else "Unexpected error getting/creating SeedUp Downloads folder")
       in
       ret None).

(** [SimpleDriveUploader.__init__]. *)
Definition __init__ (skip_existing use_seedup_folder : bool)
    : M (job api) SimpleDriveUploader :=
  let* _ := get_drive_service in
  if use_seedup_folder then
    let* seedup_folder_id := get_or_create_seedup_folder in
    if truthy seedup_folder_id
    then ret (mk_uploader skip_existing use_seedup_folder seedup_folder_id)
    else raise RuntimeError
  else ret (mk_uploader skip_existing use_seedup_folder None).

(** [upload_to_google_drive(local_path, folder_id, skip_existing=...,
    use_seedup_folder=...)]; the summary it prints is left out. *)
Definition upload_to_google_drive (local_path : string) (node : fs_node)
    (folder_id : option string) (skip_existing use_seedup_folder : bool)
    : M (job api) outcome :=
  let* uploader := __init__ skip_existing use_seedup_folder in
  let folder_id :=
    match folder_id with
    | Some folder_id => folder_id
    | None =>
        if use_seedup_folder then default "" (seedup_folder_id uploader)
        else "root"
    end in
  upload_to_drive api guess_type uploader local_path node folder_id None None.

(** main.py, [handle_upload]: [args.path], [args.folder_id] and
    [args.no_skip]; the exit code. *)
Definition handle_upload (path : string) (node : fs_node)
    (folder_id : option string) (no_skip : bool) : M (job api) Z :=
  if is_missing node then ret 1%Z
  else
    try_except
      (let* _ := lift import_uploader in
       let* results :=
         upload_to_google_drive path node folder_id (negb no_skip) true in
       match failed results with
       | [] => ret 0%Z
       | _ => ret 1%Z
       end)
      any_exception
      (fun _ => ret 1%Z).

End Account.

Arguments progresses {api} j j' k b.

End Uploader.

(** ** An in-memory remote store

    A Drive that keeps its nodes in a list, hands out the ids [id0],
    [id1], ... and answers a query with the first node it matches.  A
    read-only Drive refuses every creation, and an unreachable one answers
    every listing with an HTTP error. *)

Module MemDrive.

Import Uploader.

Record node : Type := mk_node {
  node_id : string;
  node_name : string;
  node_parent : string;
  node_is_folder : bool
}.

Definition matches (q : string) (x : node) : bool :=
  String.eqb q (file_query (node_name x) (node_parent x))
  || (node_is_folder x
      && String.eqb q (folder_query (node_name x) (node_parent x))).

Definition as_drive_file (x : node) : drive_file :=
  mk_drive_file (node_id x) (node_name x) None
    (if node_is_folder x then "application/vnd.google-apps.folder"
     else "application/octet-stream").

Definition list_nodes (reachable : bool) (q : string) (d : list node)
    : result (list drive_file) * list node :=
  if reachable then
    match List.find (matches q) d with
    | Some x => (Ok [as_drive_file x], d)
    | None => (Ok [], d)
    end
  else (Raise HttpError, d).

Definition fresh_id (d : list node) : string :=
  "id" ++ str_of_Z (Z.of_nat (length d)).

Definition create (writable is_folder : bool) (name parent : string)
    (d : list node) : result (option string) * list node :=
  if writable then
    (Ok (Some (fresh_id d)), d ++ [mk_node (fresh_id d) name parent is_folder])
  else (Raise HttpError, d).

Definition service (writable reachable : bool) : DriveService :=
  mk_service (list node) (list_nodes reachable) (create writable true)
    (fun local_path mime_type name parent => create writable false name parent).

Definition no_mime (p : string) : option string := None.

(** A job state before any call: the default-argument lists hold what
    their definition gave them. *)
Definition idle {writable reachable : bool} (d : list node)
    : job (service writable reachable) :=
  mk_job (api := service writable reachable) d (mk_tqdm 0 0 "" false) 0
    (0%N, 0%N) [].

Definition uploader : SimpleDriveUploader := mk_uploader true false None.

(** A first call of [upload_to_drive] on a working Drive holding [d]. *)
Definition upload (local_path : string) (tree : fs_node) (d : list node) :=
  upload_to_drive (service true true) no_mime uploader local_path tree "root"
    None None (idle d).

Definition nested_tree : fs_node := Dir [("b", Dir [])].

Definition z_bin : node := mk_node "id0" "z.bin" "root" false.

(** The command [upload -p path -f folder_id] in Colab, on a working
    Drive holding [d]. *)
Definition command_upload (path : string) (tree : fs_node)
    (folder_id : option string) (d : list node) :=
  handle_upload (service true true) no_mime true (Ok tt) (Ok tt)
    (fun name => create true true name "root") path tree folder_id false
    (idle d).

(** [SimpleDriveUploader(skip_existing, use_seedup_folder)] in Colab, on
    a working Drive holding [d]. *)
Definition colab_uploader (skip_existing use_seedup_folder : bool)
    (d : list node) :=
  __init__ (service true true) true (Ok tt)
    (fun name => create true true name "root") skip_existing
    use_seedup_folder (idle d).

Definition no_dedup : SimpleDriveUploader := mk_uploader false false None.

Definition small_tree : fs_node :=
  Dir [("x.txt", File 5); ("b", Dir [("y.txt", File 0)])].

Definition tree_with_socket : fs_node :=
  Dir [("x.txt", File 5); ("agent.sock", Special 0)].

End MemDrive.

(** ** A stand-in transfer engine

    Enough of libtorrent to run the session code on inputs: a session is
    the blob it would save, and a blob decodes when it starts with the [d]
    of a bencoded dictionary. *)

Module Engine.

Import Downloader.

Definition session : Type := list Byte.byte.
Definition entry : Type := list Byte.byte.

Definition lt_session : session := [].
Definition save_state (ses : session) : result entry := Ok ses.
Definition bencode (e : entry) : result (list Byte.byte) := Ok e.

Definition bdecode (data : list Byte.byte) : option entry :=
  match data with
  | Byte.x64 :: _ => Some data
  | _ => None
  end.

Definition load_state (ses : session) (e : entry) : option session := Some e.

Definition disk_accepts (p : string) (data : list Byte.byte) : bool := true.

Definition session_file : string := "torrent_session.json".

Definition world_with (e : fs_entry) : world :=
  mk_world {[ session_file := e ]} [] [].

Definition load (w : world) : result session * world :=
  load_session lt_session bdecode load_state session_file w.

Definition status (progress : Q) (download_rate num_peers : Z)
    : torrent_status :=
  mk_status true "ubuntu.iso" downloading progress download_rate 1000 500 0
    num_peers.

Definition observe (s : torrent_status) : tick session :=
  mk_tick s s 1 lt_session.

Definition blank : world := mk_world ∅ [] [].

(** A resumed run at 10% then 20%, downloading at first and stalled then. *)
Definition resumed_feed : list (tick session) :=
  [observe (status (1 # 10) 100 3); observe (status (2 # 10) 0 3)].

(** A resumed run already at 96%, downloading at first and without peers
    then. *)
Definition late_feed : list (tick session) :=
  [observe (status (96 # 100) 100 3); observe (status (96 # 100) 0 0)].

(** The rest of the engine: settings change nothing, every entry is a
    torrent, every torrent is accepted. *)
Definition apply_settings (ses : session) : session := ses.
Definition torrent_info (e : entry) : result entry := Ok e.
Definition add_torrent (ses : session)
    (params : add_torrent_params (info := entry)) : result unit := Ok tt.

Definition download (source : string) (auto_resume : bool)
    (t : timeline session) (w : world) : result download_end * world :=
  download_torrent lt_session save_state bencode bdecode load_state
    disk_accepts apply_settings torrent_info add_torrent source "downloads"
    session_file auto_resume t w.

Definition magnet : string := "magnet:?xt=urn:btih:abc".

Definition awaiting : torrent_status :=
  mk_status false "" downloading_metadata 0 0 0 0 0 0.

(** Metadata at the second poll, then the feed. *)
Definition timeline_of (feed : list (tick session)) : timeline session :=
  mk_timeline [awaiting; status 0 0 0] (status 0 0 0) feed lt_session.

(** The metadata never arrives. *)
Definition stalled : timeline session :=
  mk_timeline [awaiting; awaiting] awaiting [] lt_session.

(** An engine that cannot give its state. *)
Definition no_state (ses : session) : result entry := Raise RuntimeError.

(** A saved state that does not decode. *)
Definition garbage : list Byte.byte := [Byte.x00].

Definition seeded : torrent_status :=
  mk_status true "ubuntu.iso" seeding 1 0 1000 1000 3 3.

(** A saved state that decodes. *)
Definition blob : list Byte.byte := [Byte.x64; Byte.x65].

Definition run (feed : list (tick session)) (is_resuming : bool) (w : world)
    : result loop_end * world :=
  progress_loop save_state bencode disk_accepts session_file feed is_resuming
    w.

End Engine.

(** * Properties *)

(** ** Session persistence and the progress monitor *)

Module SessionFacts.
Import Downloader.

Ltac run_monad :=
  unfold path_exists, os_remove, read_file, open_wb, logger, print;
  unfold bind, try_except, ret, raise, gets, modify, lift, any_exception.

Section Facts.
Context {session entry : Type}.
Variable lt_session : session.
Variable save_state : session -> result entry.
Variable bencode : entry -> result (list Byte.byte).
Variable bdecode : list Byte.byte -> option entry.
Variable load_state : session -> entry -> option session.
Variable disk_accepts : string -> list Byte.byte -> bool.

Lemma clear_session_absent p w :
  fs w !! p = None -> clear_session p w = (Ok true, w).
Proof.
  intros H. unfold clear_session. run_monad.
  rewrite H. rewrite bool_decide_eq_false_2; [reflexivity|].
  intros [x Hx]. discriminate.
Qed.

Lemma clear_session_file p w data :
  fs w !! p = Some (RegFile data) ->
  clear_session p w =
    (Ok true,
     mk_world (delete p (fs w)) (log w ++ [(INFO, "Session file cleared")])
       (stdout w)).
Proof.
  intros H. unfold clear_session. run_monad.
  rewrite H, bool_decide_eq_true_2 by eauto. cbv beta. rewrite H.
  reflexivity.
Qed.

Lemma clear_session_directory p w :
  fs w !! p = Some Directory ->
  clear_session p w =
    (Ok false,
     mk_world (fs w) (log w ++ [(ERROR, "Failed to clear session")])
       (stdout w)).
Proof.
  intros H. unfold clear_session. run_monad.
  rewrite H, bool_decide_eq_true_2 by eauto. cbv beta. rewrite H.
  reflexivity.
Qed.

(** C8: [clear_session] is idempotent.  On an absent session file it
    reports success ([True]) and changes nothing; and a second call in a
    row reports what the first reported and leaves the file system as the
    first left it. *)
Theorem clear_session_idempotent (session_file : string) (w : world) :
  let once := clear_session session_file w in
  let twice := clear_session session_file (snd once) in
  (fs w !! session_file = None -> once = (Ok true, w))
  /\ fst twice = fst once
  /\ fs (snd twice) = fs (snd once).
Proof.
  cbv zeta. split; [apply clear_session_absent|].
  destruct (fs w !! session_file) as [[data|]|] eqn:E.
  - rewrite (clear_session_file _ _ _ E). simpl.
    rewrite clear_session_absent; [auto|]. simpl. apply lookup_delete_eq.
  - rewrite (clear_session_directory _ _ E). simpl.
    rewrite clear_session_directory; auto.
  - rewrite (clear_session_absent _ _ E). simpl.
    rewrite (clear_session_absent _ _ E). auto.
Qed.

Abbreviation load_session := (load_session lt_session bdecode load_state).
Abbreviation decoded := (decoded lt_session bdecode load_state).
Abbreviation save_session := (save_session save_state bencode disk_accepts).

Lemma load_session_absent p w :
  fs w !! p = None -> load_session p w = (Ok lt_session, w).
Proof.
  intros H. unfold Downloader.load_session. run_monad.
  rewrite H, bool_decide_eq_false_2; [reflexivity|].
  intros [x Hx]. discriminate.
Qed.

Lemma load_session_directory p w :
  fs w !! p = Some Directory -> load_session p w = (Raise OSError, w).
Proof.
  intros H. unfold Downloader.load_session. run_monad.
  rewrite H, bool_decide_eq_true_2 by eauto. cbv beta. rewrite H.
  reflexivity.
Qed.

Lemma load_session_file p w data :
  fs w !! p = Some (RegFile data) ->
  load_session p w =
    match decoded data with
    | Some ses =>
        (Ok ses,
         mk_world (fs w) (log w ++ [(INFO, "Session loaded")]) (stdout w))
    | None =>
        (Ok lt_session,
         mk_world (delete p (fs w))
           (log w ++ [(WARNING, "Failed to load session. Starting fresh.")])
           (stdout w))
    end.
Proof.
  intros H. unfold Downloader.load_session, Downloader.decoded, of_option.
  run_monad.
  rewrite H, bool_decide_eq_true_2 by eauto. cbv beta. rewrite H.
  destruct data as [|b data]; simpl.
  - rewrite H. reflexivity.
  - destruct (bdecode (b :: data)) as [st|]; simpl.
    + destruct (load_state lt_session st) as [ses|]; simpl.
      * reflexivity.
      * rewrite H. reflexivity.
    + rewrite H. reflexivity.
Qed.

(** C4, amended: for every session path that is not a directory,
    [load_session] returns without raising.  It returns a fresh session
    when the file is absent; when the file is present but empty or
    undecodable it deletes the file and returns a fresh session; and it
    returns the loaded session otherwise. *)
Theorem load_session_returns_unless_directory (session_file : string)
    (w : world) :
  fs w !! session_file <> Some Directory ->
  exists ses w',
    load_session session_file w = (Ok ses, w')
    /\ match fs w !! session_file with
       | None => ses = lt_session /\ w' = w
       | Some (RegFile session_data) =>
           match decoded session_data with
           | Some loaded => ses = loaded /\ fs w' = fs w
           | None =>
               ses = lt_session /\ fs w' = delete session_file (fs w)
           end
       | Some Directory => False
       end.
Proof.
  intros Hdir.
  destruct (fs w !! session_file) as [[data|]|] eqn:E.
  - rewrite (load_session_file _ _ _ E).
    destruct (decoded data) as [ses|]; eauto.
  - congruence.
  - rewrite (load_session_absent _ _ E). eauto.
Qed.

(** The steps of a save that can fail: the path is a directory, the
    engine cannot give or encode its state, the write is refused. *)
Lemma save_session_cases ses p w :
  exists w',
    save_session ses p w = (Ok tt, w')
    /\ stdout w' = stdout w
    /\ (log w' = log w ++ [(DEBUG, "Session saved")]
        \/ log w' = log w ++ [(ERROR, "Failed to save session")])
    /\ (fs w !! p = Some Directory
        \/ (exists e, save_state ses = Raise e)
        \/ (exists st e, save_state ses = Ok st /\ bencode st = Raise e)
        \/ (exists st data,
              save_state ses = Ok st /\ bencode st = Ok data
              /\ disk_accepts p data = false) ->
        log w' = log w ++ [(ERROR, "Failed to save session")]).
Proof.
  unfold Downloader.save_session, write_file. run_monad.
  assert (Hopen :
    fs w !! p = Some Directory
    \/ (fs w !! p <> Some Directory
        /\ (match fs w !! p with
            | Some Directory => (Raise OSError, w)
            | _ => (Ok tt, set_fs (<[p := RegFile []]> (fs w)) w)
            end) = (Ok tt, set_fs (<[p := RegFile []]> (fs w)) w))).
  { destruct (fs w !! p) as [[data|]|]; [right|left|right];
      (reflexivity || (split; [discriminate|reflexivity])). }
  destruct Hopen as [Hdir|[Hnd Hopen]].
  - rewrite Hdir. eexists. split; [reflexivity|]. cbn. auto.
  - rewrite Hopen. cbn.
    destruct (save_state ses) as [st|e] eqn:Hs; cbn.
    + destruct (bencode st) as [data'|e] eqn:Hb; cbn.
      * destruct (disk_accepts p data') eqn:Hd; cbn.
        -- eexists. split; [reflexivity|]. cbn.
           split; [reflexivity|]. split; [auto|].
           intros [H|[(e' & H)|[(st' & e' & H1 & H2)|(st' & d' & H1 & H2 & H3)]]];
             try congruence;
             injection H1 as <-; rewrite Hb in H2;
             try injection H2 as <-; congruence.
        -- eexists. split; [reflexivity|]. cbn. auto.
      * eexists. split; [reflexivity|]. cbn. auto.
    + eexists. split; [reflexivity|]. cbn. auto.
Qed.

Abbreviation progress_loop :=
  (progress_loop save_state bencode disk_accepts).

Lemma progress_loop_displays session_file (feed : list (tick session)) :
  forall is_resuming w,
  exists e w',
    progress_loop session_file feed is_resuming w = (Ok e, w')
    /\ stdout w' = stdout w ++ displayed feed is_resuming.
Proof.
  induction feed as [|t rest IH]; intros r w; simpl.
  - exists KeyboardInterrupt, w. split; [reflexivity|].
    symmetry. apply app_nil_r.
  - destruct (is_seeding (state (polled t))).
    + exists Seeding, w. split; [reflexivity|]. symmetry. apply app_nil_r.
    + unfold bind at 1. unfold print, modify.
      set (w1 := mk_world _ _ _).
      unfold bind at 1.
      destruct (clock t mod 10 =? 0)%Z.
      * destruct (save_session_cases (engine t) session_file w1)
          as (w2 & E2 & Hout & _).
        rewrite E2.
        destruct (IH (snd (phase_label r (snapshot t))) w2)
          as (e & w3 & E3 & H3).
        exists e, w3. split; [exact E3|].
        rewrite H3, Hout. subst w1. simpl. rewrite <- app_assoc.
        reflexivity.
      * unfold ret at 1.
        destruct (IH (snd (phase_label r (snapshot t))) w1)
          as (e & w3 & E3 & H3).
        exists e, w3. split; [exact E3|].
        rewrite H3. subst w1. simpl. rewrite <- app_assoc. reflexivity.
Qed.

(** C9: [save_session] never raises.  Whatever fails (opening the
    file, [save_state], [bencode], the write), it returns normally, and
    all it has done about the failure is to log the error; so the
    progress loop goes through its whole feed and displays every line,
    whether or not its checkpoints fail. *)
Theorem save_session_never_raises (ses : session) (session_file : string)
    (feed : list (tick session)) (is_resuming : bool) (w : world) :
  (exists w',
     save_session ses session_file w = (Ok tt, w')
     /\ (log w' = log w ++ [(DEBUG, "Session saved")]
         \/ log w' = log w ++ [(ERROR, "Failed to save session")])
     /\ (fs w !! session_file = Some Directory
         \/ (exists e, save_state ses = Raise e)
         \/ (exists st e, save_state ses = Ok st /\ bencode st = Raise e)
         \/ (exists st data,
               save_state ses = Ok st /\ bencode st = Ok data
               /\ disk_accepts session_file data = false) ->
         log w' = log w ++ [(ERROR, "Failed to save session")]))
  /\ (exists e w',
        progress_loop session_file feed is_resuming w = (Ok e, w')
        /\ stdout w' = stdout w ++ displayed feed is_resuming).
Proof.
  split.
  - destruct (save_session_cases ses session_file w) as (w' & E & _ & H & F).
    eauto.
  - apply progress_loop_displays.
Qed.

(** *** Phase labels *)

Lemma phase_label_fresh s :
  fst (phase_label false s) <> "Resuming Download"
  /\ snd (phase_label false s) = false.
Proof.
  unfold phase_label. simpl.
  destruct ((download_rate s =? 0)%Z && (num_peers s =? 0)%Z); simpl;
    split; (discriminate || reflexivity).
Qed.

Lemma phase_label_active r s :
  fst (phase_label r s) = "Download Progress" ->
  snd (phase_label r s) = false.
Proof.
  unfold phase_label.
  destruct (r && Qltb (progress s * 100) 95); simpl; [discriminate|].
  destruct ((download_rate s =? 0)%Z && (num_peers s =? 0)%Z); simpl;
    [discriminate|reflexivity].
Qed.

Lemma displayed_fresh (feed : list (tick session)) :
  forall j dj,
    displayed feed false !! j = Some dj ->
    label dj <> "Resuming Download".
Proof.
  induction feed as [|t rest IH]; intros j dj; simpl.
  - rewrite lookup_nil. discriminate.
  - destruct (is_seeding (state (polled t))).
    + rewrite lookup_nil. discriminate.
    + destruct (phase_label_fresh (snapshot t)) as [Hl Hr].
      rewrite Hr. destruct j as [|j]; simpl.
      * intros [= <-]. exact Hl.
      * apply IH.
Qed.

Lemma displayed_after_active (feed : list (tick session)) :
  forall is_resuming i j di dj,
    i < j ->
    displayed feed is_resuming !! i = Some di ->
    displayed feed is_resuming !! j = Some dj ->
    label di = "Download Progress" ->
    label dj <> "Resuming Download".
Proof.
  induction feed as [|t rest IH]; intros r i j di dj Hij; simpl.
  - rewrite lookup_nil. discriminate.
  - destruct (is_seeding (state (polled t))).
    + rewrite lookup_nil. discriminate.
    + destruct j as [|j]; [lia|]. destruct i as [|i]; simpl.
      * intros [= <-] Hj Hl. simpl in Hl.
        rewrite (phase_label_active _ _ Hl) in Hj.
        eapply displayed_fresh; eauto.
      * apply IH. lia.
Qed.

(** C2, amended: once a tick of a run displays the label
    "Download Progress", no later tick of that run displays "Resuming
    Download", whatever the rates observed afterwards. *)
Theorem no_resuming_after_download_progress (session_file : string)
    (feed : list (tick session)) (is_resuming : bool) (w : world)
    (out : list display) (i j : nat) (di dj : display) :
  stdout (snd (progress_loop session_file feed is_resuming w))
    = stdout w ++ out ->
  i < j ->
  out !! i = Some di ->
  out !! j = Some dj ->
  label di = "Download Progress" ->
  label dj <> "Resuming Download".
Proof.
  intros Hout Hij Hi Hj Hl.
  destruct (progress_loop_displays session_file feed is_resuming w)
    as (e & w' & E & H).
  rewrite E in Hout. simpl in Hout. rewrite H in Hout.
  apply app_inv_head in Hout. subst out.
  eapply displayed_after_active; eauto.
Qed.

(** *** The ETA *)

Lemma Qle_Z_div (k a b : Z) :
  (0 < b)%Z ->
  (inject_Z k <= inject_Z a / inject_Z b)%Q <-> (k * b <= a)%Z.
Proof.
  intros Hb. split.
  - intros H. apply Qfloor_resp_le in H.
    rewrite Qfloor_Z, <- Zdiv_Qdiv in H.
    apply Z.le_trans with (b * (a / b))%Z.
    + rewrite Z.mul_comm. apply Z.mul_le_mono_nonneg_l; lia.
    + apply Z.mul_div_le. lia.
  - intros H. apply Qle_trans with (inject_Z (a / b)).
    + rewrite <- Zle_Qle. apply Z.div_le_lower_bound; lia.
    + rewrite Zdiv_Qdiv. apply Qfloor_le.
Qed.

Lemma Qltb_Z_div (k a b : Z) :
  (0 < b)%Z ->
  Qltb (inject_Z a / inject_Z b) (inject_Z k) = (a <? k * b)%Z.
Proof.
  intros Hb. unfold Qltb.
  destruct (Qle_bool (inject_Z k) (inject_Z a / inject_Z b)) eqn:E; simpl.
  - apply Qle_bool_iff in E. apply (proj1 (Qle_Z_div k a b Hb)) in E.
    symmetry. apply Z.ltb_ge. exact E.
  - symmetry. apply Z.ltb_lt.
    destruct (Z.lt_ge_cases a (k * b)) as [H|H]; [exact H|].
    apply (proj2 (Qle_Z_div k a b Hb)) in H.
    apply Qle_bool_iff in H. congruence.
Qed.

Lemma py_int_Z_div (a b : Z) :
  (0 < b)%Z -> py_int (inject_Z a / inject_Z b) = (a ÷ b)%Z.
Proof.
  intros Hb. unfold py_int.
  destruct (Qle_bool 0 (inject_Z a / inject_Z b)) eqn:E.
  - apply Qle_bool_iff in E. change 0%Q with (inject_Z 0) in E.
    apply (proj1 (Qle_Z_div 0 a b Hb)) in E.
    rewrite <- Zdiv_Qdiv. symmetry. apply Z.quot_div_nonneg; lia.
  - assert (Ha : (a < 0)%Z).
    { destruct (Z.lt_ge_cases a 0) as [H|H]; [exact H|].
      assert (H' : (0 * b <= a)%Z) by lia.
      apply (proj2 (Qle_Z_div 0 a b Hb)) in H'.
      apply Qle_bool_iff in H'.
      change (inject_Z 0) with 0%Q in H'. congruence. }
    unfold Qceiling.
    assert (Hop : (- (inject_Z a / inject_Z b) ==
                   inject_Z (- a) / inject_Z b)%Q).
    { rewrite inject_Z_opp. unfold Qdiv. ring. }
    rewrite Hop, <- Zdiv_Qdiv.
    rewrite <- (Z.opp_involutive a) at 2.
    rewrite Z.quot_opp_l by lia.
    rewrite Z.quot_div_nonneg by lia. reflexivity.
Qed.

Lemma py_int_comp (x y : Q) : (x == y)%Q -> py_int x = py_int y.
Proof.
  intros H. unfold py_int.
  rewrite (Qfloor_comp _ _ H), (Qceiling_comp _ _ H).
  assert (Hb : Qle_bool 0 x = Qle_bool 0 y) by (rewrite H; reflexivity).
  rewrite Hb. reflexivity.
Qed.

Lemma inject_Z_nonzero (b : Z) : (0 < b)%Z -> ~ (inject_Z b == 0)%Q.
Proof.
  intros Hb H. unfold Qeq in H. simpl in H. lia.
Qed.

Lemma Qdiv_div_Z (a b k : Z) :
  (0 < b)%Z -> (0 < k)%Z ->
  (inject_Z a / inject_Z b / inject_Z k == inject_Z a / inject_Z (b * k))%Q.
Proof.
  intros Hb Hk. rewrite inject_Z_mult. field.
  split; apply inject_Z_nonzero; assumption.
Qed.

Lemma py_mod_Z_div (a b k : Z) :
  (0 < b)%Z -> (0 < k)%Z ->
  (py_mod (inject_Z a / inject_Z b) (inject_Z k)
   == inject_Z (a - k * (a / (b * k)) * b) / inject_Z b)%Q.
Proof.
  intros Hb Hk. unfold py_mod.
  rewrite (Qdiv_div_Z a b k Hb Hk), <- Zdiv_Qdiv.
  unfold Z.sub. rewrite inject_Z_plus, inject_Z_opp, !inject_Z_mult.
  field. apply inject_Z_nonzero; assumption.
Qed.

Lemma mod_as_div (a b k : Z) :
  (0 < b)%Z -> (0 < k)%Z ->
  ((a - k * (a / (b * k)) * b) / b = (a / b) mod k)%Z.
Proof.
  intros Hb Hk.
  replace (a - k * (a / (b * k)) * b)%Z
    with (a + (- (k * (a / (b * k)))) * b)%Z by ring.
  rewrite Z.div_add by lia.
  rewrite <- Z.div_div by lia.
  rewrite (Z.mod_eq (a / b) k) by lia. ring.
Qed.


End Facts.
End SessionFacts.

(** *** On inputs *)

Module SessionRuns.

(** C2, as stated, fails: in a resumed run at 10% then 20%, the first tick
    observes a positive rate and the second one still displays "Resuming
    Download". *)
Lemma resuming_shown_after_positive_rate :
  let out :=
    Downloader.stdout (snd (Engine.run Engine.resumed_feed true Engine.blank))
  in
  exists i j t dj,
    i < j
    /\ Engine.resumed_feed !! i = Some t
    /\ (0 < Downloader.download_rate (Downloader.snapshot t))%Z
    /\ out !! j = Some dj
    /\ Downloader.label dj = "Resuming Download".
Proof.
  exists 0, 1, (Engine.observe (Engine.status (1 # 10) 100 3)),
    (Downloader.mk_display "Resuming Download" "N/A").
  split; [lia|]. split; [reflexivity|]. split; [reflexivity|].
  split; [vm_compute; reflexivity|reflexivity].
Qed.

(** A resumed run that is at 96% when it starts downloading and loses its
    peers afterwards. *)
Lemma no_resuming_after_download_progress_witness :
  Downloader.label (Downloader.mk_display "Connecting to Peers" "N/A")
  <> "Resuming Download".
Proof.
  apply (SessionFacts.no_resuming_after_download_progress
           Engine.save_state Engine.bencode Engine.disk_accepts
           Engine.session_file Engine.late_feed true Engine.blank
           [Downloader.mk_display "Download Progress" "5s";
            Downloader.mk_display "Connecting to Peers" "N/A"]
           0 1 (Downloader.mk_display "Download Progress" "5s")).
  - vm_compute. reflexivity.
  - lia.
  - reflexivity.
  - reflexivity.
  - reflexivity.
Defined.

(** Clearing when there is no session file. *)
Lemma clear_session_idempotent_witness :
  Downloader.clear_session Engine.session_file Engine.blank
  = (Ok true, Engine.blank).
Proof.
  apply (SessionFacts.clear_session_idempotent Engine.session_file
           Engine.blank).
  vm_compute. reflexivity.
Defined.

(** C4, as stated, fails: when the session path is a directory,
    [os.path.exists] holds, [open] raises [OSError], and the handler for
    [RuntimeError] and [ValueError] lets it through. *)
Lemma load_session_raises_on_directory :
  Engine.load (Engine.world_with Downloader.Directory)
  = (Raise OSError, Engine.world_with Downloader.Directory).
Proof. vm_compute. reflexivity. Qed.

(** Loading from an empty session file. *)
Lemma load_session_returns_unless_directory_witness :
  exists ses w',
    Engine.load (Engine.world_with (Downloader.RegFile [])) = (Ok ses, w')
    /\ ses = Engine.lt_session
    /\ Downloader.fs w' = ∅.
Proof.
  destruct (SessionFacts.load_session_returns_unless_directory
              Engine.lt_session Engine.bdecode Engine.load_state
              Engine.session_file
              (Engine.world_with (Downloader.RegFile [])))
    as (ses & w' & E & H).
  - vm_compute. discriminate.
  - exists ses, w'. split; [exact E|].
    change (Downloader.fs (Engine.world_with (Downloader.RegFile []))
              !! Engine.session_file)
      with (Some (Downloader.RegFile [])) in H.
    simpl in H. destruct H as [H1 H2]. split; [exact H1|].
    rewrite H2. vm_compute. reflexivity.
Defined.

End SessionRuns.

(** ** The upload orchestrator *)

Module UploadFacts.
Import Uploader.

Section Facts.
Variable api : DriveService.
Variable guess_type : string -> option string.

Abbreviation job := (job api).
Abbreviation file_exists := (file_exists api).
Abbreviation folder_exists := (folder_exists api).
Abbreviation upload_file := (upload_file api guess_type).
Abbreviation create_folder := (create_folder api).
Abbreviation upload_leaf := (upload_leaf api guess_type).
Abbreviation upload_to_drive := (upload_to_drive api guess_type).
Abbreviation frames := (frames api).

(** The equation of the directory case. *)
Lemma upload_to_drive_dir self local_path items parent_id pb ts :
  upload_to_drive self local_path (Dir items) parent_id pb ts =
    (let* st := enter api self (Dir items) parent_id pb ts in
     let* folder_id := create_folder self (basename local_path) (fst st) in
     let* results :=
       if truthy folder_id then
         try_listing api local_path
           (fun item_path child =>
              upload_to_drive self item_path child (default "" folder_id)
                (Some bar_of_job) (snd st))
           items
           (set_root_folder_id (default "" folder_id)
              (mk_results [] [] [] (fst st)))
       else ret (append_failed local_path (mk_results [] [] [] (fst st))) in
     let* _ := close_when_done api in
     ret results).
Proof. reflexivity. Qed.

Lemma close_when_done_remote (j : job) :
  exists j',
    close_when_done api j = (Ok tt, j')
    /\ remote j' = remote j
    /\ _uploaded_size j' = _uploaded_size j
    /\ _file_count j' = _file_count j
    /\ errors j' = errors j
    /\ total (progress_bar j') = total (progress_bar j).
Proof.
  unfold close_when_done, modify.
  destruct (tqdm_bool (progress_bar j) && _); eexists; split;
    try reflexivity; simpl; auto 10.
Qed.


(** The equation of the file case. *)
Lemma upload_to_drive_file self local_path file_size parent_id pb ts :
  upload_to_drive self local_path (File file_size) parent_id pb ts =
    (let* st := enter api self (File file_size) parent_id pb ts in
     upload_leaf self local_path file_size (fst st)
       (mk_results [] [] [] (fst st))).
Proof. reflexivity. Qed.

Lemma file_exists_http_error file_name parent_id (j : job) d1 :
  files_list api (file_query file_name parent_id) (remote j)
    = (Raise HttpError, d1) ->
  file_exists file_name parent_id j =
    (Ok None,
     mk_job d1 (progress_bar j) (_uploaded_size j) (_file_count j)
       (errors j ++ ["Error checking if file exists"])).
Proof.
  intros H. unfold Uploader.file_exists, try_except, bind, on_remote.
  rewrite H. reflexivity.
Qed.


(** *** The root folder id *)

Lemma listing_root local_path visit items :
  forall results (j : job),
    root_folder_id (fst (fst (listing api local_path visit items results j)))
    = root_folder_id results.
Proof.
  induction items as [|[item child] items IH]; intros results j; simpl.
  - reflexivity.
  - destruct (visit (path_join local_path item) child j) as [[sub|e] j'].
    + rewrite IH. reflexivity.
    + reflexivity.
Qed.

Lemma try_listing_returns local_path visit items results (j : job) :
  exists r j',
    try_listing api local_path visit items results j = (Ok r, j')
    /\ root_folder_id r = root_folder_id results.
Proof.
  unfold try_listing.
  pose proof (listing_root local_path visit items results j) as H.
  destruct (listing api local_path visit items results j)
    as [[r [e|]] j']; simpl in H; eexists _, _; (split; [reflexivity|]);
    simpl; exact H.
Qed.

(** C1, amended: in the directory case the id returned by
    [create_folder] becomes the [root_folder_id] of the outcome of that
    call, and the nested calls do not change it: whatever the tree under
    it, the outcome returned to the caller carries the folder id of the
    outermost directory. *)
Theorem root_folder_id_is_outermost (self : SimpleDriveUploader)
    (local_path : string) (items : list (string * fs_node))
    (parent_id : string) (_progress_bar : option tqdm_ref)
    (_total_size : option N) (j j0 j1 : job) (st : string * option N)
    (folder_id : string) :
  enter api self (Dir items) parent_id _progress_bar _total_size j
    = (Ok st, j0) ->
  create_folder self (basename local_path) (fst st) j0
    = (Ok (Some folder_id), j1) ->
  folder_id <> "" ->
  exists r j',
    upload_to_drive self local_path (Dir items) parent_id _progress_bar
      _total_size j = (Ok r, j')
    /\ root_folder_id r = folder_id.
Proof.
  intros Henter Hcreate Hne.
  rewrite upload_to_drive_dir. unfold bind at 1. rewrite Henter.
  unfold bind at 1. rewrite Hcreate.
  assert (Ht : truthy (Some folder_id) = true).
  { simpl. apply negb_true_iff, String.eqb_neq. exact Hne. }
  rewrite Ht. unfold bind at 1.
  match goal with
  | |- context [try_listing api ?p ?v ?l ?r ?s] =>
      destruct (try_listing_returns p v l r s) as (r' & j' & E & Hroot);
      rewrite E
  end.
  destruct (close_when_done_remote j') as (j'' & Hc & _).
  unfold bind. rewrite Hc. unfold ret.
  exists r', j''. split; [reflexivity|]. exact Hroot.
Qed.

(** *** Counting *)

Lemma fs_node_rect' (P : fs_node -> Prop) :
  P Missing ->
  (forall size, P (File size)) ->
  (forall items, Forall (fun entry => P (snd entry)) items -> P (Dir items)) ->
  (forall size, P (Special size)) ->
  forall node, P node.
Proof.
  intros HM HF HD HS. fix IH 1. intros [|size|items|size].
  - exact HM.
  - apply HF.
  - apply HD. induction items as [|[item child] items IHitems].
    + constructor.
    + constructor; [apply IH|exact IHitems].
  - apply HS.
Qed.

Lemma same_progress_refl (j : job) : same_progress j j.
Proof. repeat split. Qed.

Lemma same_progress_trans (j1 j2 j3 : job) :
  same_progress j1 j2 -> same_progress j2 j3 -> same_progress j1 j3.
Proof.
  intros (a & b & c) (d & e & f). repeat split; congruence.
Qed.

Lemma frames_ret {A} (a : A) : frames (ret a).
Proof. intros j r j' [= <- <-]. apply same_progress_refl. Qed.

Lemma frames_bind {A B} (m : M job A) (k : A -> M job B) :
  frames m -> (forall a, frames (k a)) -> frames (bind m k).
Proof.
  intros Hm Hk j r j'. unfold bind.
  destruct (m j) as [[a|e] j1] eqn:E.
  - intros H. eapply same_progress_trans; [eapply Hm|eapply Hk]; eauto.
  - intros [= <- <-]. eapply Hm; eauto.
Qed.

Lemma frames_try {A} (m : M job A) c h :
  frames m -> (forall e, frames (h e)) -> frames (try_except m c h).
Proof.
  intros Hm Hh j r j'. unfold try_except.
  destruct (m j) as [[a|e] j1] eqn:E.
  - intros [= <- <-]. eapply Hm; eauto.
  - destruct (c e).
    + intros H. eapply same_progress_trans; [eapply Hm|eapply Hh]; eauto.
    + intros [= <- <-]. eapply Hm; eauto.
Qed.

Lemma frames_on_remote {A} (f : drive api -> result A * drive api) :
  frames (on_remote api f).
Proof.
  intros j r j'. unfold on_remote. destruct (f (remote j)).
  intros [= <- <-]. repeat split.
Qed.

Lemma frames_logger_error msg : frames (logger_error api msg).
Proof. intros j r j' [= <- <-]. repeat split. Qed.

Create HintDb frames.
#[local] Hint Resolve frames_ret frames_on_remote frames_logger_error : frames.

Lemma frames_file_exists file_name parent_id :
  frames (file_exists file_name parent_id).
Proof.
  apply frames_try.
  - apply frames_bind; [auto with frames|].
    intros [|f l]; auto with frames.
  - intros e. apply frames_bind; auto with frames.
Qed.

Lemma frames_upload_file self local_path parent_id :
  frames (upload_file self local_path parent_id).
Proof.
  apply frames_bind.
  - destruct (skip_existing self);
      [apply frames_file_exists|auto with frames].
  - intros [f|]; [auto with frames|].
    apply frames_try; [auto with frames|].
    intros e. apply frames_bind; auto with frames.
Qed.

Lemma frames_folder_exists folder_name parent_id :
  frames (folder_exists folder_name parent_id).
Proof.
  apply frames_try.
  - apply frames_bind; [auto with frames|].
    intros [|f l]; auto with frames.
  - intros e. apply frames_bind; auto with frames.
Qed.

Lemma frames_create_folder self folder_name parent_id :
  frames (create_folder self folder_name parent_id).
Proof.
  apply frames_bind.
  - destruct (skip_existing self);
      [apply frames_folder_exists|auto with frames].
  - intros existing_id. destruct (truthy existing_id); [auto with frames|].
    apply frames_try; [auto with frames|].
    intros e. apply frames_bind; auto with frames.
Qed.

Lemma advance_counts file_size (j : job) :
  tqdm_bool (progress_bar j) = true ->
  exists j',
    advance api file_size j = (Ok tt, j')
    /\ total (progress_bar j') = total (progress_bar j)
    /\ _uploaded_size j' = (_uploaded_size j + file_size)%N
    /\ _file_count j' = ((fst (_file_count j) + 1)%N, snd (_file_count j))
    /\ remote j' = remote j.
Proof.
  intros H. unfold advance, modify. rewrite H.
  eexists. split; [reflexivity|]. simpl. auto.
Qed.

Lemma advance_skips file_size (j : job) :
  tqdm_bool (progress_bar j) = false ->
  advance api file_size j = (Ok tt, j).
Proof. intros H. unfold advance, modify. rewrite H. reflexivity. Qed.

(** The leaf case when the existence query finds the name. *)
Lemma existing_file_is_skipped self local_path file_size parent_id pb ts
    (j j0 j1 : job) st f :
  skip_existing self = true ->
  enter api self (File file_size) parent_id pb ts j = (Ok st, j0) ->
  file_exists (basename local_path) (fst st) j0 = (Ok (Some f), j1) ->
  upload_to_drive self local_path (File file_size) parent_id pb ts j
  = (Ok (mk_results [] [] [local_path] (fst st)),
     snd (advance api file_size j1)).
Proof.
  intros Hskip Henter Hfe.
  rewrite upload_to_drive_file. unfold bind at 1. rewrite Henter.
  unfold Uploader.upload_leaf. rewrite Hskip.
  unfold bind at 1. rewrite Hfe.
  unfold bind, ret, advance, modify. reflexivity.
Qed.

(** *** The aggregate when the bar counts *)

Lemma advanced_frame (j j' : job) :
  same_progress j j' -> advanced j j' 0.
Proof.
  intros (a & b & c). unfold advanced. rewrite a, c. repeat split. lia.
Qed.

Lemma advanced_trans (j1 j2 j3 : job) a b :
  advanced j1 j2 a -> advanced j2 j3 b -> advanced j1 j3 (a + b).
Proof.
  intros (h1 & h2 & h3) (h4 & h5 & h6). unfold advanced.
  rewrite h4, h5, h6, h1, h2, h3. repeat split. lia.
Qed.

Lemma advanced_bool (j j' : job) k :
  advanced j j' k -> tqdm_bool (progress_bar j') = tqdm_bool (progress_bar j).
Proof. intros (h & _). unfold tqdm_bool. rewrite h. reflexivity. Qed.

Lemma walk_cons item child items :
  regular child = true ->
  files (walk (Dir ((item, child) :: items)))
  = (files (count_items child) + files (walk (Dir items)))%N.
Proof.
  intros H. destruct child; try discriminate; simpl; lia.
Qed.

Section Reliable.

Variable self : SimpleDriveUploader.

(** Every remote folder creation succeeds. *)
Hypothesis creation_succeeds :
  forall folder_name parent_id (j : job),
  exists folder_id j',
    create_folder self folder_name parent_id j = (Ok (Some folder_id), j')
    /\ folder_id <> "".

(** A listing fails with an HTTP error or not at all. *)
Hypothesis listing_fails_with_http :
  forall q d e d', files_list api q d = (Raise e, d') -> e = HttpError.

Lemma file_exists_returns file_name parent_id (j : job) :
  exists r j', file_exists file_name parent_id j = (Ok r, j').
Proof.
  unfold Uploader.file_exists, try_except, bind, on_remote.
  destruct (files_list api (file_query file_name parent_id) (remote j))
    as [[l|e] d] eqn:E.
  - destruct l; eexists _, _; reflexivity.
  - rewrite (listing_fails_with_http _ _ _ _ E). simpl.
    eexists _, _; reflexivity.
Qed.

Lemma upload_file_returns local_path parent_id (j : job) :
  exists r j', upload_file self local_path parent_id j = (Ok r, j').
Proof.
  unfold Uploader.upload_file. unfold bind at 1.
  assert (H : exists r j',
            (if skip_existing self
             then file_exists (basename local_path) parent_id
             else ret None) j = (Ok r, j')).
  { destruct (skip_existing self);
      [apply file_exists_returns|eexists _, _; reflexivity]. }
  destruct H as (r & j' & ->).
  destruct r as [f|]; [eexists _, _; reflexivity|].
  unfold try_except, on_remote.
  destruct (files_create_media api _ _ _ _ _) as [[i|e] d];
    eexists _, _; reflexivity.
Qed.

Lemma upload_leaf_counts local_path file_size parent_id results (j : job) :
  tqdm_bool (progress_bar j) = true ->
  exists r j',
    upload_leaf self local_path file_size parent_id results j = (Ok r, j')
    /\ counted r = (counted results + 1)%N
    /\ advanced j j' 1.
Proof.
  intros Hbar. unfold Uploader.upload_leaf. unfold bind at 1.
  assert (H : exists r j',
            (if skip_existing self
             then file_exists (basename local_path) parent_id
             else ret None) j = (Ok r, j') /\ same_progress j j').
  { destruct (skip_existing self).
    - destruct (file_exists_returns (basename local_path) parent_id j)
        as (r & j' & E).
      exists r, j'. split; [exact E|].
      eapply frames_file_exists; eauto.
    - exists None, j. split; [reflexivity|apply same_progress_refl]. }
  destruct H as (existing & j1 & -> & Hf1).
  assert (Hbar1 : tqdm_bool (progress_bar j1) = true).
  { destruct Hf1 as (-> & _). exact Hbar. }
  destruct existing as [f|].
  - destruct (advance_counts file_size j1 Hbar1)
      as (j2 & E2 & Ht & _ & Hc & _).
    unfold bind, ret. rewrite E2.
    eexists _, _. split; [reflexivity|]. split.
    + unfold counted. simpl. rewrite !length_app. simpl. lia.
    + destruct Hf1 as (Hb & _ & Hfc). unfold advanced.
      rewrite Ht, Hc, Hb, Hfc. simpl. auto.
  - destruct (upload_file_returns local_path parent_id j1)
      as (file_id & j2 & E2).
    pose proof (frames_upload_file _ _ _ _ _ _ E2) as Hf2.
    assert (Hbar2 : tqdm_bool (progress_bar j2) = true).
    { destruct Hf2 as (-> & _). exact Hbar1. }
    destruct (advance_counts file_size j2 Hbar2)
      as (j3 & E3 & Ht & _ & Hc & _).
    unfold bind at 1. rewrite E2. unfold bind, ret. rewrite E3.
    eexists _, _. split; [reflexivity|]. split.
    + unfold counted.
      destruct (truthy file_id); simpl; rewrite !length_app; simpl; lia.
    + destruct Hf1 as (Hb1 & _ & Hfc1). destruct Hf2 as (Hb2 & _ & Hfc2).
      unfold advanced. rewrite Ht, Hc, Hb2, Hfc2, Hb1, Hfc1. simpl. auto.
Qed.

Lemma counted_extend r sub :
  counted (extend r sub) = (counted r + counted sub)%N.
Proof. unfold counted. simpl. rewrite !length_app. lia. Qed.

Lemma listing_counts local_path folder_id ts items :
  Forall (fun entry => counts api guess_type self (snd entry)) items ->
  forallb (fun entry => regular (snd entry)) items = true ->
  forall results (j : job),
    tqdm_bool (progress_bar j) = true ->
    exists r j',
      listing api local_path
        (fun item_path child =>
           upload_to_drive self item_path child folder_id
             (Some bar_of_job) ts)
        items results j = ((r, None), j')
      /\ counted r = (counted results + files (walk (Dir items)))%N
      /\ advanced j j' (files (walk (Dir items))).
Proof.
  induction 1 as [|[item child] items Hchild _ IH]; intros Hreg results j Hbar.
  - exists results, j. split; [reflexivity|]. split.
    + simpl. lia.
    + apply advanced_frame, same_progress_refl.
  - simpl in Hreg. apply andb_true_iff in Hreg as [Hc Hrest].
    simpl in Hchild.
    destruct (Hchild Hc (path_join local_path item) folder_id
                (Some bar_of_job) ts j j (folder_id, ts) eq_refl Hbar)
      as (sub & j1 & E1 & Hn1 & Ha1).
    assert (Hbar1 : tqdm_bool (progress_bar j1) = true).
    { rewrite (advanced_bool _ _ _ Ha1). exact Hbar. }
    destruct (IH Hrest (extend results sub) j1 Hbar1)
      as (r & j2 & E2 & Hn2 & Ha2).
    exists r, j2. split.
    + cbn [listing]. rewrite E1. exact E2.
    + rewrite (walk_cons _ _ _ Hc). split.
      * rewrite Hn2, counted_extend, Hn1. lia.
      * eapply advanced_trans; eauto.
Qed.

Lemma upload_counts node : counts api guess_type self node.
Proof.
  induction node as [|file_size|items IH|size] using fs_node_rect';
    intros Hreg; try discriminate.
  - intros local_path parent_id pb ts j j0 st Henter Hbar.
    rewrite upload_to_drive_file. unfold bind at 1. rewrite Henter.
    destruct (upload_leaf_counts local_path file_size (fst st)
                (mk_results [] [] [] (fst st)) j0 Hbar)
      as (r & j' & E & Hn & Ha).
    exists r, j'. split; [exact E|]. split; [|exact Ha].
    rewrite Hn. reflexivity.
  - intros local_path parent_id pb ts j j0 st Henter Hbar.
    rewrite upload_to_drive_dir. unfold bind at 1. rewrite Henter.
    destruct (creation_succeeds (basename local_path) (fst st) j0)
      as (folder_id & j1 & E1 & Hne).
    pose proof (frames_create_folder _ _ _ _ _ _ E1) as Hf1.
    unfold bind at 1. rewrite E1.
    assert (Ht : truthy (Some folder_id) = true).
    { simpl. apply negb_true_iff, String.eqb_neq. exact Hne. }
    rewrite Ht.
    assert (Hbar1 : tqdm_bool (progress_bar j1) = true).
    { destruct Hf1 as (-> & _). exact Hbar. }
    simpl in Hreg.
    destruct (listing_counts local_path folder_id (snd st) items IH Hreg
                (set_root_folder_id folder_id
                   (mk_results [] [] [] (fst st))) j1 Hbar1)
      as (r & j2 & E2 & Hn2 & Ha2).
    unfold bind at 1. unfold try_listing. simpl default. rewrite E2.
    destruct (close_when_done_remote j2)
      as (j3 & E3 & _ & _ & Hfc & _ & Htot).
    unfold bind, ret. rewrite E3.
    exists r, j3. split; [reflexivity|]. split.
    + rewrite Hn2. reflexivity.
    + apply advanced_frame in Hf1.
      pose proof (advanced_trans _ _ _ _ _ Hf1 Ha2) as Ha.
      destruct Ha as (h1 & h2 & h3). unfold advanced.
      rewrite Htot, Hfc, h1, h2, h3. simpl. auto.
Qed.

(** The aggregate invariant of the design document, for the trees whose
    bar counts: those that hold at least one byte. *)
Theorem aggregate_invariant_when_bar_counts (local_path : string)
    (node : fs_node) (parent_id : string) (j : job) :
  regular node = true ->
  (0 < total_size (count_items node))%N ->
  exists r j',
    upload_to_drive self local_path node parent_id None None j = (Ok r, j')
    /\ fst (_file_count j') = snd (_file_count j')
    /\ snd (_file_count j') = files (count_items node)
    /\ counted r = files (count_items node).
Proof.
  intros Hreg Hpos.
  edestruct (upload_counts node Hreg local_path parent_id None None j)
    as (r & j' & E & Hn & Ha).
  { unfold enter, bind, start_progress, ret. reflexivity. }
  { unfold tqdm_bool. simpl. apply N.ltb_lt. exact Hpos. }
  exists r, j'. split; [exact E|].
  destruct Ha as (_ & h2 & h3). simpl in h2, h3.
  rewrite h2, h3. split; [lia|]. split; [reflexivity|exact Hn].
Qed.

End Reliable.

End Facts.
End UploadFacts.

(** *** On inputs *)

Module UploadRuns.

Import Uploader MemDrive.

(** C1, as stated, fails: uploading a directory [a] that holds a directory
    [b] creates [a] as [id0] and [b], the deepest one, as [id1]; the
    outcome returned to the caller carries [id0]. *)
Lemma nested_outcome_keeps_outermost_id :
  exists r j,
    upload "/data/a" nested_tree [] = (Ok r, j)
    /\ remote j = [mk_node "id0" "a" "root" true; mk_node "id1" "b" "id0" true]
    /\ root_folder_id r = "id0"
    /\ root_folder_id r <> "id1".
Proof.
  eexists _, _. split; [vm_compute; reflexivity|].
  split; [reflexivity|]. split; [reflexivity|discriminate].
Qed.

(** The same upload, through the theorem. *)
Lemma root_folder_id_is_outermost_witness :
  exists r j,
    upload "/data/a" nested_tree [] = (Ok r, j) /\ root_folder_id r = "id0".
Proof.
  eapply (UploadFacts.root_folder_id_is_outermost (service true true) no_mime
            uploader "/data/a" [("b", Dir [])] "root" None None (idle [])
            _ _ _ "id0").
  - cbv. reflexivity.
  - cbv. reflexivity.
  - discriminate.
Defined.

(** C3: the code at a single zero-byte file.  The pre-scan counts one
    file, the file is uploaded, and the count of completed files stays at
    zero, because the bar of a zero-byte job is false. *)
Lemma zero_byte_file_is_not_counted :
  files (count_items (File 0)) = 1%N
  /\ exists r j,
       upload "/data/z.bin" (File 0) [] = (Ok r, j)
       /\ success r = ["/data/z.bin"]
       /\ _file_count j = (0%N, 1%N).
Proof.
  split; [reflexivity|].
  eexists _, _. split; [vm_compute; reflexivity|].
  split; reflexivity.
Qed.

(** C5: the code at a zero-byte file whose name is already on the Drive.
    The file is skipped, as the claim says, and the count of completed
    files stays at zero, where the claim says it is incremented. *)
Lemma skipped_zero_byte_file_is_not_counted :
  exists r j,
    upload "/data/z.bin" (File 0) [z_bin] = (Ok r, j)
    /\ skipped r = ["/data/z.bin"]
    /\ success r = [] /\ failed r = []
    /\ _file_count j = (0%N, 1%N).
Proof.
  eexists _, _. split; [vm_compute; reflexivity|].
  repeat split; reflexivity.
Qed.



(** The in-memory Drive meets the two hypotheses of the aggregate
    invariant, which therefore holds of every upload to it that carries at
    least one byte. *)
Lemma memdrive_creation_succeeds folder_name parent_id
    (j : job (service true true)) :
  exists folder_id j',
    create_folder (service true true) uploader folder_name parent_id j
    = (Ok (Some folder_id), j')
    /\ folder_id <> "".
Proof.
  unfold create_folder, folder_exists, try_except, bind, on_remote, ret.
  simpl. unfold list_nodes.
  destruct (List.find (matches (folder_query folder_name parent_id)) (remote j))
    as [x|]; simpl.
  - destruct (String.eqb (node_id x) "") eqn:E; simpl.
    + eexists _, _. split; [reflexivity|]. discriminate.
    + eexists _, _. split; [reflexivity|]. apply String.eqb_neq. exact E.
  - eexists _, _. split; [reflexivity|]. discriminate.
Qed.

Lemma memdrive_listing_fails_with_http q (d : drive (service true true)) e
    (d' : drive (service true true)) :
  files_list (service true true) q d = (Raise e, d') -> e = HttpError.
Proof.
  simpl. unfold list_nodes. destruct (List.find (matches q) d); discriminate.
Qed.

Lemma aggregate_invariant_on_memdrive local_path node d :
  regular node = true ->
  (0 < total_size (count_items node))%N ->
  exists r j',
    upload local_path node d = (Ok r, j')
    /\ fst (_file_count j') = snd (_file_count j')
    /\ snd (_file_count j') = files (count_items node)
    /\ counted r = files (count_items node).
Proof.
  apply (UploadFacts.aggregate_invariant_when_bar_counts (service true true)
           no_mime uploader memdrive_creation_succeeds
           memdrive_listing_fails_with_http).
Qed.

End UploadRuns.

(** * Further properties of the session code

    [download_torrent] with its session file, and the two commands of
    main.py that work on it. *)

Module SessionLaws.
Import Downloader SessionFacts.

Section Laws.
Context {session entry : Type}.
Variable lt_session : session.
Variable save_state : session -> result entry.
Variable bencode : entry -> result (list Byte.byte).
Variable bdecode : list Byte.byte -> option entry.
Variable load_state : session -> entry -> option session.
Variable disk_accepts : string -> list Byte.byte -> bool.
Context {info : Type}.
Variable apply_settings : session -> session.
Variable torrent_info : entry -> result info.
Variable add_torrent :
  session -> add_torrent_params (info := info) -> result unit.

Abbreviation download_torrent :=
  (download_torrent lt_session save_state bencode bdecode load_state
     disk_accepts apply_settings torrent_info add_torrent).
Abbreviation torrent_source := (torrent_source bdecode torrent_info).
Abbreviation transfer :=
  (transfer save_state bencode disk_accepts add_torrent).
Abbreviation save_fails := (save_fails save_state bencode disk_accepts).

Abbreviation load_session := (load_session lt_session bdecode load_state).
Abbreviation decoded := (decoded lt_session bdecode load_state).
Abbreviation save_session := (save_session save_state bencode disk_accepts).
Abbreviation progress_loop := (progress_loop save_state bencode disk_accepts).
Abbreviation monitor := (monitor save_state bencode disk_accepts).

(** Opening the session file for writing, when it is not a directory. *)
Lemma open_wb_file p w :
  fs w !! p <> Some Directory ->
  open_wb p w = (Ok tt, set_fs (<[p := RegFile []]> (fs w)) w).
Proof.
  intros H. unfold open_wb. destruct (fs w !! p) as [[data|]|]; congruence.
Qed.

Lemma save_session_directory ses p w :
  fs w !! p = Some Directory ->
  save_session ses p w =
    (Ok tt,
     mk_world (fs w) (log w ++ [(ERROR, "Failed to save session")])
       (stdout w)).
Proof.
  intros H. unfold Downloader.save_session, try_except, bind, open_wb.
  rewrite H. reflexivity.
Qed.

Lemma save_session_writes ses p w st data :
  fs w !! p <> Some Directory ->
  save_state ses = Ok st ->
  bencode st = Ok data ->
  disk_accepts p data = true ->
  save_session ses p w =
    (Ok tt,
     mk_world (<[p := RegFile data]> (fs w))
       (log w ++ [(DEBUG, "Session saved")]) (stdout w)).
Proof.
  intros Hnd Hs Hb Hd.
  unfold Downloader.save_session, try_except, bind, lift, write_file.
  rewrite (open_wb_file _ _ Hnd), Hs, Hb. cbn. rewrite Hd. cbn.
  rewrite insert_insert_eq. reflexivity.
Qed.

Lemma save_session_truncates ses p w :
  fs w !! p <> Some Directory ->
  save_fails ses p ->
  save_session ses p w =
    (Ok tt,
     mk_world (<[p := RegFile []]> (fs w))
       (log w ++ [(ERROR, "Failed to save session")]) (stdout w)).
Proof.
  intros Hnd Hf.
  unfold Downloader.save_session, try_except, bind, lift, write_file.
  rewrite (open_wb_file _ _ Hnd).
  destruct Hf as [(e & Hs)|[(st & e & Hs & Hb)|(st & data & Hs & Hb & Hd)]].
  - rewrite Hs. reflexivity.
  - rewrite Hs, Hb. reflexivity.
  - rewrite Hs, Hb. cbn. rewrite Hd. reflexivity.
Qed.



Lemma save_session_fs ses p w :
  fs (snd (save_session ses p w)) = fs w
  \/ exists data, fs (snd (save_session ses p w)) = <[p := RegFile data]> (fs w).
Proof.
  assert (Hcase : fs w !! p = Some Directory \/ fs w !! p <> Some Directory).
  { destruct (fs w !! p) as [[d|]|]; [right|left|right]; congruence. }
  destruct Hcase as [Hd|Hnd].
  - rewrite (save_session_directory _ _ _ Hd). left. reflexivity.
  - right. destruct (save_state ses) as [st|e] eqn:Hs.
    + destruct (bencode st) as [data|e] eqn:Hb.
      * destruct (disk_accepts p data) eqn:Hk.
        -- rewrite (save_session_writes _ _ _ _ _ Hnd Hs Hb Hk). eauto.
        -- rewrite (save_session_truncates _ _ _ Hnd); [eauto|].
           right. right. eauto.
      * rewrite (save_session_truncates _ _ _ Hnd); [eauto|].
        right. left. eauto.
    + rewrite (save_session_truncates _ _ _ Hnd); [eauto|]. left. eauto.
Qed.

Lemma load_session_fs p w :
  fs (snd (load_session p w)) = fs w
  \/ fs (snd (load_session p w)) = delete p (fs w).
Proof.
  destruct (fs w !! p) as [[data|]|] eqn:E.
  - rewrite (load_session_file lt_session bdecode load_state _ _ _ E).
    destruct (decoded data); simpl; auto.
  - rewrite (load_session_directory lt_session bdecode load_state _ _ E).
    auto.
  - rewrite (load_session_absent lt_session bdecode load_state _ _ E). auto.
Qed.

Lemma clear_session_fs p w :
  fs (snd (clear_session p w)) = fs w
  \/ fs (snd (clear_session p w)) = delete p (fs w).
Proof.
  destruct (fs w !! p) as [[data|]|] eqn:E.
  - rewrite (clear_session_file _ _ _ E). auto.
  - rewrite (clear_session_directory _ _ E). auto.
  - rewrite (clear_session_absent _ _ E). auto.
Qed.



(** X5.  A [load_session] that returned can be repeated: the second
    load returns the same session and leaves the file system as the first
    left it. *)
Theorem load_session_twice (session_file : string) (w w1 : world)
    (ses : session) :
  load_session session_file w = (Ok ses, w1) ->
  exists w2,
    load_session session_file w1 = (Ok ses, w2) /\ fs w2 = fs w1.
Proof.
  intros H.
  destruct (fs w !! session_file) as [[data|]|] eqn:E.
  - rewrite (load_session_file lt_session bdecode load_state _ _ _ E) in H.
    destruct (decoded data) as [loaded|] eqn:Hdec.
    + injection H as <- <-.
      rewrite (load_session_file lt_session bdecode load_state _ _ data)
        by exact E.
      rewrite Hdec. eexists. split; reflexivity.
    + injection H as <- <-.
      rewrite (load_session_absent lt_session bdecode load_state)
        by (simpl; apply lookup_delete_eq).
      eexists. split; reflexivity.
  - rewrite (load_session_directory lt_session bdecode load_state _ _ E) in H.
    discriminate.
  - rewrite (load_session_absent lt_session bdecode load_state _ _ E) in H.
    injection H as <- <-.
    rewrite (load_session_absent lt_session bdecode load_state _ _ E).
    eexists. split; reflexivity.
Qed.

(** *** The loop and its two exits *)

Lemma save_session_keeps_file ses p w :
  fs w !! p <> Some Directory ->
  fs (snd (save_session ses p w)) !! p <> Some Directory.
Proof.
  intros Hnd.
  destruct (save_session_fs ses p w) as [->|[data ->]]; [exact Hnd|].
  rewrite lookup_insert_eq. discriminate.
Qed.

Lemma save_session_returns ses p w :
  save_session ses p w = (Ok tt, snd (save_session ses p w))
  /\ stdout (snd (save_session ses p w)) = stdout w.
Proof.
  destruct (save_session_cases save_state bencode disk_accepts ses p w)
    as (w' & E & Hout & _).
  rewrite E. auto.
Qed.

Lemma progress_loop_ends session_file (feed : list (tick session)) :
  forall is_resuming w,
  exists w',
    progress_loop session_file feed is_resuming w
    = (Ok (if completes feed then Seeding else KeyboardInterrupt), w')
    /\ stdout w' = stdout w ++ displayed feed is_resuming
    /\ (fs w !! session_file <> Some Directory ->
        fs w' !! session_file <> Some Directory).
Proof.
  induction feed as [|t rest IH]; intros r w; simpl.
  - exists w. rewrite app_nil_r. auto.
  - destruct (is_seeding (state (polled t))); simpl.
    + exists w. rewrite app_nil_r. auto.
    + unfold bind at 1. unfold print, modify.
      set (w1 := mk_world _ _ _).
      unfold bind at 1.
      destruct (clock t mod 10 =? 0)%Z.
      * destruct (save_session_returns (engine t) session_file w1) as [E Hout].
        rewrite E.
        destruct (IH (snd (phase_label r (snapshot t)))
                    (snd (save_session (engine t) session_file w1)))
          as (w3 & E3 & H3 & Hf).
        exists w3. split; [exact E3|]. split.
        -- rewrite H3, Hout. subst w1. simpl. rewrite <- app_assoc.
           reflexivity.
        -- intros Hnd. apply Hf, save_session_keeps_file. exact Hnd.
      * unfold ret at 1.
        destruct (IH (snd (phase_label r (snapshot t))) w1)
          as (w3 & E3 & H3 & Hf).
        exists w3. split; [exact E3|]. split.
        -- rewrite H3. subst w1. simpl. rewrite <- app_assoc. reflexivity.
        -- exact Hf.
Qed.



(** X8.  The loop saves the session only on the ten-second marks of the
    clock: when no iteration falls on one, the file system and the log are
    as they were. *)
Theorem checkpoints_on_ten_second_marks (session_file : string)
    (feed : list (tick session)) (is_resuming : bool) (w : world) :
  Forall (fun t => (clock t mod 10)%Z <> 0%Z) feed ->
  exists e w',
    progress_loop session_file feed is_resuming w = (Ok e, w')
    /\ fs w' = fs w
    /\ log w' = log w.
Proof.
  intros H. revert is_resuming w.
  induction H as [|t rest Ht _ IH]; intros r w; simpl.
  - eexists _, _. split; [reflexivity|]. auto.
  - destruct (is_seeding (state (polled t))).
    + eexists _, _. split; [reflexivity|]. auto.
    + unfold bind at 1. unfold print, modify.
      set (w1 := mk_world _ _ _).
      unfold bind at 1.
      apply Z.eqb_neq in Ht. rewrite Ht. unfold ret at 1.
      destruct (IH (snd (phase_label r (snapshot t))) w1)
        as (e & w' & E & Hfs & Hlog).
      exists e, w'. split; [exact E|]. rewrite Hfs, Hlog. auto.
Qed.

(** *** What the label means *)

Lemma phase_label_resuming r s :
  fst (phase_label r s) = "Resuming Download" ->
  r = true /\ (progress s * 100 < 95)%Q.
Proof.
  unfold phase_label.
  destruct (r && Qltb (progress s * 100) 95) eqn:E; simpl.
  - intros _. apply andb_true_iff in E as [-> Hlt]. split; [reflexivity|].
    unfold Qltb in Hlt. apply negb_true_iff in Hlt.
    destruct (Qlt_le_dec (progress s * 100) 95) as [Hl|Hl]; [exact Hl|].
    apply Qle_bool_iff in Hl. congruence.
  - destruct ((download_rate s =? 0)%Z && (num_peers s =? 0)%Z); simpl;
      discriminate.
Qed.

Lemma phase_label_keeps r s : snd (phase_label r s) = true -> r = true.
Proof.
  unfold phase_label.
  destruct (r && Qltb (progress s * 100) 95) eqn:E; simpl.
  - intros ->. reflexivity.
  - destruct ((download_rate s =? 0)%Z && (num_peers s =? 0)%Z); simpl;
      [intros ->; reflexivity|discriminate].
Qed.

Lemma displayed_resuming (feed : list (tick session)) :
  forall is_resuming j dj,
    displayed feed is_resuming !! j = Some dj ->
    label dj = "Resuming Download" ->
    is_resuming = true
    /\ exists t,
         feed !! j = Some t /\ (progress (snapshot t) * 100 < 95)%Q.
Proof.
  induction feed as [|t rest IH]; intros r j dj; simpl.
  - rewrite lookup_nil. discriminate.
  - destruct (is_seeding (state (polled t))).
    + rewrite lookup_nil. discriminate.
    + destruct j as [|j]; simpl.
      * intros [= <-] Hl. simpl in Hl.
        destruct (phase_label_resuming _ _ Hl) as [-> Hlt].
        split; [reflexivity|]. exists t. auto.
      * intros Hj Hl. destruct (IH _ _ _ Hj Hl) as [Hr Ht].
        split; [|exact Ht]. apply (phase_label_keeps _ _ Hr).
Qed.

(** X9.  A line labelled Resuming Download is displayed only in a run
    started as resuming, and only at an iteration whose progress is below
    95%. *)
Theorem resuming_label_means_resumed_below_95 (session_file : string)
    (feed : list (tick session)) (is_resuming : bool) (w : world)
    (out : list display) (j : nat) (dj : display) :
  stdout (snd (progress_loop session_file feed is_resuming w))
    = stdout w ++ out ->
  out !! j = Some dj ->
  label dj = "Resuming Download" ->
  is_resuming = true
  /\ exists t, feed !! j = Some t /\ (progress (snapshot t) * 100 < 95)%Q.
Proof.
  intros Hout Hj Hl.
  destruct (progress_loop_ends session_file feed is_resuming w)
    as (w' & E & H & _).
  rewrite E in Hout. simpl in Hout. rewrite H in Hout.
  apply app_inv_head in Hout. subst out.
  eapply displayed_resuming; eauto.
Qed.

(** *** [download_torrent] *)

Lemma monitor_returns download_path torrent_name session_file
    (feed : list (tick session)) ses is_resuming w :
  exists r w',
    monitor download_path torrent_name session_file feed ses is_resuming w
    = (Ok r, w')
    /\ stdout w' = stdout w ++ displayed feed is_resuming.
Proof.
  unfold Downloader.monitor. unfold bind at 1.
  destruct (progress_loop_ends session_file feed is_resuming w)
    as (w1 & E & Hout & _).
  rewrite E. destruct (completes feed).
  - unfold bind at 1. unfold logger at 1. unfold modify.
    set (w2 := mk_world _ _ _).
    unfold bind at 1. unfold path_exists, gets.
    destruct (fs w2 !! session_file) as [[data|]|] eqn:E2.
    + rewrite bool_decide_eq_true_2 by eauto.
      unfold bind, try_except, os_remove, logger, modify, ret. rewrite E2.
      eexists _, _. split; [reflexivity|]. exact Hout.
    + rewrite bool_decide_eq_true_2 by eauto.
      unfold bind, try_except, os_remove, logger, modify, ret. rewrite E2.
      eexists _, _. split; [reflexivity|]. exact Hout.
    + rewrite bool_decide_eq_false_2 by (intros [x Hx]; discriminate).
      unfold bind, ret. eexists _, _. split; [reflexivity|]. exact Hout.
  - unfold bind at 1. unfold logger at 1. unfold modify.
    set (w2 := mk_world _ _ _).
    destruct (save_session_returns ses session_file w2) as [Es Hs].
    unfold bind, ret. rewrite Es.
    eexists _, _. split; [reflexivity|]. rewrite Hs. exact Hout.
Qed.

Lemma ensure_directory_makes download_path w :
  exists w0,
    ensure_directory download_path w = (Ok tt, w0)
    /\ stdout w0 = stdout w
    /\ is_Some (fs w0 !! download_path)
    /\ (forall q, q <> download_path -> fs w0 !! q = fs w !! q)
    /\ (is_Some (fs w !! download_path) -> w0 = w).
Proof.
  unfold ensure_directory. unfold bind at 1. unfold path_exists, gets.
  destruct (fs w !! download_path) as [x|] eqn:E.
  - rewrite bool_decide_eq_true_2 by eauto.
    exists w. split; [reflexivity|]. rewrite E. eauto 10.
  - rewrite bool_decide_eq_false_2 by (intros [x Hx]; discriminate).
    eexists. split; [reflexivity|]. simpl. rewrite lookup_insert_eq.
    split; [reflexivity|]. split; [eauto|]. split.
    + intros q Hq. apply lookup_insert_ne. congruence.
    + intros [x Hx]. discriminate.
Qed.

Lemma load_session_on_file p w :
  fs w !! p <> Some Directory ->
  exists ses w', load_session p w = (Ok ses, w').
Proof.
  intros Hnd. destruct (fs w !! p) as [[data|]|] eqn:E.
  - rewrite (load_session_file lt_session bdecode load_state _ _ _ E).
    destruct (decoded data); eauto.
  - congruence.
  - rewrite (load_session_absent lt_session bdecode load_state _ _ E). eauto.
Qed.

Lemma load_session_stdout p w :
  stdout (snd (load_session p w)) = stdout w.
Proof.
  destruct (fs w !! p) as [[data|]|] eqn:E.
  - rewrite (load_session_file lt_session bdecode load_state _ _ _ E).
    destruct (decoded data); reflexivity.
  - rewrite (load_session_directory lt_session bdecode load_state _ _ E).
    reflexivity.
  - rewrite (load_session_absent lt_session bdecode load_state _ _ E).
    reflexivity.
Qed.

Lemma torrent_source_magnet source download_path w :
  startswith source "magnet:" = true ->
  torrent_source source download_path w =
    (Ok (Some (mk_params download_path (Some source) None)),
     mk_world (fs w) (log w ++ [(INFO, "Adding magnet link")]) (stdout w)).
Proof.
  intros H. unfold Downloader.torrent_source. rewrite H. reflexivity.
Qed.

Lemma torrent_source_invalid source download_path w :
  startswith source "magnet:" = false ->
  endswith source ".torrent" = false ->
  torrent_source source download_path w =
    (Ok None,
     mk_world (fs w)
       (log w
        ++ [(ERROR, "Invalid source. Provide a .torrent file or magnet link.")])
       (stdout w)).
Proof.
  intros H1 H2. unfold Downloader.torrent_source. rewrite H1, H2.
  reflexivity.
Qed.

Lemma torrent_source_returns source download_path w :
  exists params w',
    torrent_source source download_path w = (Ok params, w')
    /\ stdout w' = stdout w /\ fs w' = fs w.
Proof.
  unfold Downloader.torrent_source.
  destruct (startswith source "magnet:"); [eexists _, _; eauto|].
  destruct (endswith source ".torrent"); [|eexists _, _; eauto].
  unfold bind at 1. unfold path_exists, gets.
  destruct (bool_decide (is_Some (fs w !! source))); [|eexists _, _; eauto].
  unfold try_except, bind, read_file, of_option, lift, logger, modify, ret,
    raise.
  destruct (fs w !! source) as [[data|]|]; try (eexists _, _; eauto; fail).
  destruct (bdecode data) as [e|]; [|eexists _, _; eauto].
  destruct (torrent_info e); eexists _, _; eauto.
Qed.

Lemma transfer_returns ses params download_path session_file t
    is_resuming w :
  exists r w' out,
    transfer ses params download_path session_file t is_resuming w
    = (Ok r, w')
    /\ stdout w' = stdout w ++ out
    /\ (out = [] \/ out = displayed (feed t) is_resuming)
    /\ (add_torrent ses params = Ok tt ->
        (existsb has_metadata (polls t) = true ->
         out = displayed (feed t) is_resuming /\ exists p, r = Returned p)
        /\ (existsb has_metadata (polls t) = false ->
            r = Interrupted /\ fs w' = fs w)).
Proof.
  unfold Downloader.transfer, bind, try_except, lift, logger, modify, ret.
  destruct (add_torrent ses params) as [[]|e].
  - destruct (existsb has_metadata (polls t)).
    + match goal with
      | |- context [monitor ?a ?b ?c ?d ?e ?f ?g] =>
          destruct (monitor_returns a b c d e f g) as (p & w3 & E & Hout);
          rewrite E
      end.
      exists (Returned p), w3, (displayed (feed t) is_resuming).
      split; [reflexivity|]. split; [exact Hout|]. split; [auto|].
      intros _. split; [eauto|discriminate].
    + eexists _, _, []. split; [reflexivity|].
      rewrite app_nil_r. simpl. split; [reflexivity|]. split; [auto|].
      intros _. split; [discriminate|auto].
  - cbn. eexists _, _, []. split; [reflexivity|]. rewrite app_nil_r. simpl.
    split; [reflexivity|]. split; [auto|]. discriminate.
Qed.

(** What [download_torrent] displays, whatever it is given. *)
Lemma download_torrent_displays source download_path session_file
    auto_resume t w :
  exists w0 out,
    ensure_directory download_path w = (Ok tt, w0)
    /\ stdout (snd (download_torrent source download_path session_file
                      auto_resume t w)) = stdout w ++ out
    /\ (out = []
        \/ out = displayed (feed t)
                   (auto_resume
                    && bool_decide (is_Some (fs w0 !! session_file)))).
Proof.
  destruct (ensure_directory_makes download_path w) as (w0 & E0 & H0 & _).
  exists w0. unfold Downloader.download_torrent.
  unfold bind at 1. rewrite E0.
  unfold bind at 1. unfold path_exists at 1, gets.
  set (r := auto_resume && _).
  unfold bind at 1.
  assert (Hl : exists ses w1,
            (if auto_resume then load_session session_file else ret lt_session)
              w0 = (ses, w1) /\ stdout w1 = stdout w0).
  { destruct auto_resume.
    - eexists _, _. split; [apply surjective_pairing|].
      apply load_session_stdout.
    - eexists _, _. split; reflexivity. }
  destruct Hl as (ses & w1 & -> & H1).
  destruct ses as [ses|e].
  - unfold bind at 1.
    destruct (torrent_source_returns source download_path w1)
      as (params & w2 & -> & H2 & _).
    destruct params as [params|].
    + destruct (transfer_returns (apply_settings ses) params download_path
                  session_file t r w2) as (res & w3 & out & -> & H3 & Ho & _).
      exists out. split; [reflexivity|]. split; [|exact Ho].
      simpl. rewrite H3, H2, H1, H0. reflexivity.
    + exists []. split; [reflexivity|]. split; [|auto].
      simpl. rewrite app_nil_r, H2, H1, H0. reflexivity.
  - exists []. split; [reflexivity|]. split; [|auto].
    simpl. rewrite app_nil_r, H1, H0. reflexivity.
Qed.

(** X10.  Whether a run is a resuming one is decided by the presence of
    the session file, before it is loaded: with [auto_resume] and a session
    file, the lines are those of a resuming run whether or not the file
    decodes. *)
Theorem resuming_is_decided_by_presence
    (source download_path session_file : string) (t : timeline session)
    (w : world) (data : list Byte.byte) :
  fs w !! session_file = Some (RegFile data) ->
  startswith source "magnet:" = true ->
  (forall ses params, add_torrent ses params = Ok tt) ->
  existsb has_metadata (polls t) = true ->
  exists p w',
    download_torrent source download_path session_file true t w
    = (Ok (Returned p), w')
    /\ stdout w' = stdout w ++ displayed (feed t) true.
Proof.
  intros Hf Hm Hadd Hmeta.
  destruct (ensure_directory_makes download_path w)
    as (w0 & E0 & H0 & _ & Hframe & Hsame).
  assert (Hf0 : fs w0 !! session_file = Some (RegFile data)).
  { destruct (String.eqb_spec session_file download_path) as [->|Hne].
    - rewrite Hsame by eauto. exact Hf.
    - rewrite Hframe by exact Hne. exact Hf. }
  unfold Downloader.download_torrent.
  unfold bind at 1. rewrite E0.
  unfold bind at 1. unfold path_exists at 1, gets.
  rewrite Hf0, bool_decide_eq_true_2 by eauto. cbn [andb].
  unfold bind at 1.
  rewrite (load_session_file lt_session bdecode load_state _ _ _ Hf0).
  assert (Hgo : forall ses w1,
            stdout w1 = stdout w0 ->
            exists p w',
              (let* params := torrent_source source download_path in
               match params with
               | Some params =>
                   transfer (apply_settings ses) params download_path
                     session_file t true
               | None => ret (Returned None)
               end) w1 = (Ok (Returned p), w')
              /\ stdout w' = stdout w ++ displayed (feed t) true).
  { intros ses w1 H1. unfold bind at 1.
    rewrite (torrent_source_magnet _ _ _ Hm).
    match goal with
    | |- context [transfer ?a ?b ?c ?d ?e ?f ?g] =>
        destruct (transfer_returns a b c d e f g)
          as (res & w3 & out & -> & H3 & _ & Hok)
    end.
    destruct (Hok (Hadd _ _)) as [Hyes _].
    destruct (Hyes Hmeta) as [-> [p ->]].
    exists p, w3. split; [reflexivity|].
    rewrite H3. simpl. rewrite H1, H0. reflexivity. }
  destruct (decoded data) as [loaded|]; apply Hgo; reflexivity.
Qed.


(** X12.  Without [auto_resume] no line of the run is labelled Resuming
    Download, whatever the session file holds. *)
Theorem fresh_start_never_shows_resuming
    (source download_path session_file : string) (t : timeline session)
    (w : world) (out : list display) (d : display) :
  stdout (snd (download_torrent source download_path session_file false t w))
    = stdout w ++ out ->
  d ∈ out ->
  label d <> "Resuming Download".
Proof.
  intros Hout Hd.
  destruct (download_torrent_displays source download_path session_file false
              t w) as (w0 & out' & _ & H & Ho).
  rewrite H in Hout. apply app_inv_head in Hout. subst out'.
  destruct Ho as [->| ->].
  - apply elem_of_nil in Hd. contradiction.
  - apply list_elem_of_lookup in Hd as [j Hj]. simpl in Hj.
    apply (displayed_fresh (feed t) j d Hj).
Qed.

(** X13.  An interrupt that arrives while the function waits for the
    metadata is outside the [try] of the loop: it leaves the function, and
    no session file is written. *)
Theorem interrupt_before_metadata_saves_nothing
    (source download_path session_file : string) (auto_resume : bool)
    (t : timeline session) (w : world) :
  fs w !! session_file = None ->
  session_file <> download_path ->
  startswith source "magnet:" = true ->
  (forall ses params, add_torrent ses params = Ok tt) ->
  existsb has_metadata (polls t) = false ->
  exists w',
    download_torrent source download_path session_file auto_resume t w
    = (Ok Interrupted, w')
    /\ fs w' !! session_file = None.
Proof.
  intros Hf Hne Hm Hadd Hmeta.
  destruct (ensure_directory_makes download_path w)
    as (w0 & E0 & H0 & _ & Hframe & _).
  assert (Hf0 : fs w0 !! session_file = None)
    by (rewrite Hframe by exact Hne; exact Hf).
  unfold Downloader.download_torrent.
  unfold bind at 1. rewrite E0.
  unfold bind at 1. unfold path_exists at 1, gets.
  unfold bind at 1.
  assert (Hl : (if auto_resume then load_session session_file
                else ret lt_session) w0 = (Ok lt_session, w0)).
  { destruct auto_resume; [|reflexivity].
    apply (load_session_absent lt_session bdecode load_state _ _ Hf0). }
  rewrite Hl. unfold bind at 1. rewrite (torrent_source_magnet _ _ _ Hm).
  match goal with
  | |- context [transfer ?a ?b ?c ?d ?e ?f ?g] =>
      destruct (transfer_returns a b c d e f g)
        as (res & w3 & out & -> & _ & _ & Hok)
  end.
  destruct (Hok (Hadd _ _)) as [_ Hno].
  destruct (Hno Hmeta) as [-> Hfs].
  exists w3. split; [reflexivity|]. rewrite Hfs. exact Hf0.
Qed.

End Laws.
End SessionLaws.

(** ** The session laws on inputs *)

Module SessionLawRuns.

Import Downloader.




(** Loading twice, the first time from a session file that does not
    decode. *)
Lemma load_session_twice_witness :
  let w1 := snd (Engine.load (Engine.world_with (RegFile Engine.garbage))) in
  exists w2,
    Engine.load w1 = (Ok Engine.lt_session, w2) /\ fs w2 = fs w1.
Proof.
  apply (SessionLaws.load_session_twice Engine.lt_session Engine.bdecode
           Engine.load_state Engine.session_file
           (Engine.world_with (RegFile Engine.garbage))).
  vm_compute. reflexivity.
Defined.



(** Two iterations at one second past a ten-second mark. *)
Lemma checkpoints_on_ten_second_marks_witness :
  exists e w',
    Engine.run Engine.resumed_feed true Engine.blank = (Ok e, w')
    /\ fs w' = fs Engine.blank
    /\ log w' = log Engine.blank.
Proof.
  apply (SessionLaws.checkpoints_on_ten_second_marks Engine.save_state
           Engine.bencode Engine.disk_accepts Engine.session_file
           Engine.resumed_feed true Engine.blank).
  repeat constructor; vm_compute; discriminate.
Defined.

(** The second line of a resumed run at 10% then 20%. *)
Lemma resuming_label_means_resumed_below_95_witness :
  true = true
  /\ exists t,
       Engine.resumed_feed !! 1%nat = Some t
       /\ (progress (snapshot t) * 100 < 95)%Q.
Proof.
  eapply (SessionLaws.resuming_label_means_resumed_below_95
            Engine.save_state Engine.bencode Engine.disk_accepts
            Engine.session_file Engine.resumed_feed true Engine.blank
            _ 1 (mk_display "Resuming Download" "N/A")).
  - vm_compute. reflexivity.
  - reflexivity.
  - reflexivity.
Defined.

(** A magnet download started beside a session file that does not
    decode: the file is discarded and the lines still say Resuming. *)
Lemma resuming_is_decided_by_presence_witness :
  exists p w',
    Engine.download Engine.magnet true
      (Engine.timeline_of Engine.resumed_feed)
      (Engine.world_with (RegFile Engine.garbage))
    = (Ok (Returned p), w')
    /\ stdout w'
       = [mk_display "Resuming Download" "5s";
          mk_display "Resuming Download" "N/A"].
Proof.
  apply (SessionLaws.resuming_is_decided_by_presence Engine.lt_session
           Engine.save_state Engine.bencode Engine.bdecode Engine.load_state
           Engine.disk_accepts Engine.apply_settings Engine.torrent_info
           Engine.add_torrent Engine.magnet "downloads" Engine.session_file
           (Engine.timeline_of Engine.resumed_feed)
           (Engine.world_with (RegFile Engine.garbage)) Engine.garbage).
  - reflexivity.
  - reflexivity.
  - reflexivity.
  - reflexivity.
Defined.


(** The first line of a download started with --no-resume beside a
    session file. *)
Lemma fresh_start_never_shows_resuming_witness :
  label (mk_display "Download Progress" "5s") <> "Resuming Download".
Proof.
  eapply (SessionLaws.fresh_start_never_shows_resuming Engine.lt_session
            Engine.save_state Engine.bencode Engine.bdecode Engine.load_state
            Engine.disk_accepts Engine.apply_settings Engine.torrent_info
            Engine.add_torrent Engine.magnet "downloads" Engine.session_file
            (Engine.timeline_of Engine.resumed_feed)
            (Engine.world_with (RegFile Engine.blob))).
  - vm_compute. reflexivity.
  - left.
Defined.

(** A magnet download interrupted while it waits for the metadata. *)
Lemma interrupt_before_metadata_saves_nothing_witness :
  exists w',
    Engine.download Engine.magnet true Engine.stalled Engine.blank
    = (Ok Interrupted, w')
    /\ fs w' !! Engine.session_file = None.
Proof.
  apply (SessionLaws.interrupt_before_metadata_saves_nothing
           Engine.lt_session Engine.save_state Engine.bencode Engine.bdecode
           Engine.load_state Engine.disk_accepts Engine.apply_settings
           Engine.torrent_info Engine.add_torrent Engine.magnet "downloads"
           Engine.session_file true Engine.stalled Engine.blank).
  - reflexivity.
  - discriminate.
  - reflexivity.
  - reflexivity.
  - reflexivity.
Defined.

End SessionLawRuns.

(** * Further properties of the uploader

    The progress tracking of [upload_to_drive], the uploader without the
    existence checks, [__init__] and the callers of the uploader. *)

Module UploadLaws.
Import Uploader UploadFacts.

Section Laws.
Variable api : DriveService.
Variable guess_type : string -> option string.
Variable self : SimpleDriveUploader.

Abbreviation job := (job api).
Abbreviation upload_to_drive := (upload_to_drive api guess_type).
Abbreviation upload_leaf := (upload_leaf api guess_type).
Abbreviation upload_file := (upload_file api guess_type).
Abbreviation nested_progresses := (nested_progresses api guess_type self).
Abbreviation never_skips := (never_skips api guess_type self).

(** *** Progress stays within the totals *)

Lemma progresses_refl (j : job) : progresses j j 0 0.
Proof. unfold progresses. repeat split; try lia. auto. Qed.

Lemma progresses_frame (j j' : job) :
  same_progress j j' -> progresses j j' 0 0.
Proof.
  intros (a & b & c). unfold progresses. rewrite a, b, c.
  repeat split; try lia. auto.
Qed.

Lemma progresses_trans (j1 j2 j3 : job) a b c d :
  progresses j1 j2 a b -> progresses j2 j3 c d ->
  progresses j1 j3 (a + c) (b + d).
Proof.
  intros (t1 & s1 & l1 & u1 & l1' & u1' & n1 & c1)
         (t2 & s2 & l2 & u2 & l2' & u2' & n2 & c2).
  unfold progresses. rewrite t2, t1, s2, s1.
  repeat split; try lia.
  intros H. destruct (c2 H) as [H2|H2].
  - destruct (c1 H2) as [H1|H1]; [auto|]. right. rewrite s1 in H1. lia.
  - right. rewrite s2, s1 in H2. exact H2.
Qed.

Lemma progresses_weaken (j j' : job) a b a' b' :
  (a <= a')%N -> (b <= b')%N ->
  progresses j j' a b -> progresses j j' a' b'.
Proof.
  intros Ha Hb (t & s & l & u & l' & u' & n & c).
  unfold progresses. repeat split; try lia; auto.
Qed.

Lemma progresses_after_frame (j j1 j2 : job) a b :
  same_progress j j1 -> progresses j1 j2 a b -> progresses j j2 a b.
Proof.
  intros F P. apply progresses_frame in F.
  pose proof (progresses_trans _ _ _ _ _ _ _ F P) as H.
  exact H.
Qed.

Lemma progresses_idle (j j' : job) a b :
  same_progress j j' -> progresses j j' a b.
Proof.
  intros F. apply (progresses_weaken j j' 0 0); try lia.
  apply progresses_frame, F.
Qed.

Lemma advance_progresses file_size (j : job) :
  exists j',
    advance api file_size j = (Ok tt, j')
    /\ progresses j j' 1 file_size
    /\ closed (progress_bar j') = closed (progress_bar j)
    /\ remote j' = remote j.
Proof.
  unfold advance, modify.
  destruct (tqdm_bool (progress_bar j)); eexists; (split; [reflexivity|]).
  - split; [|auto]. unfold progresses. simpl. repeat split; try lia. auto.
  - split; [|auto]. apply progresses_idle, same_progress_refl.
Qed.

Lemma close_progresses (j : job) :
  exists j',
    close_when_done api j = (Ok tt, j') /\ progresses j j' 0 0.
Proof.
  unfold close_when_done, modify.
  destruct (tqdm_bool (progress_bar j)
            && (snd (_file_count j) <=? fst (_file_count j))%N) eqn:E;
    eexists; (split; [reflexivity|]); [|apply progresses_refl].
  unfold progresses. simpl. repeat split; try lia.
  intros _. right. apply andb_true_iff in E as [_ E].
  apply N.leb_le in E. exact E.
Qed.

Lemma dedup_frames file_name parent_id :
  frames api
    (if skip_existing self then file_exists api file_name parent_id
     else ret None).
Proof.
  destruct (skip_existing self); [apply frames_file_exists|].
  intros j r j' [= <- <-]. apply same_progress_refl.
Qed.

Lemma upload_leaf_progresses local_path file_size parent_id results
    (j j' : job) r :
  upload_leaf self local_path file_size parent_id results j = (r, j') ->
  progresses j j' 1 file_size
  /\ closed (progress_bar j') = closed (progress_bar j).
Proof.
  unfold Uploader.upload_leaf. unfold bind at 1.
  destruct ((if skip_existing self
             then file_exists api (basename local_path) parent_id
             else ret None) j) as [[existing|e] j1] eqn:E1.
  - pose proof (dedup_frames _ _ _ _ _ E1) as F1.
    destruct existing as [f|].
    + destruct (advance_progresses file_size j1) as (j2 & E2 & P2 & C2 & _).
      unfold bind, ret. rewrite E2. intros [= <- <-]. split.
      * exact (progresses_after_frame _ _ _ _ _ F1 P2).
      * rewrite C2. destruct F1 as (-> & _). reflexivity.
    + unfold bind at 1.
      destruct (upload_file self local_path parent_id j1)
        as [[file_id|e] j2] eqn:E2.
      * pose proof (frames_upload_file _ _ _ _ _ _ _ _ E2) as F2.
        destruct (advance_progresses file_size j2) as (j3 & E3 & P3 & C3 & _).
        unfold bind, ret. rewrite E3. intros [= <- <-]. split.
        -- refine (progresses_after_frame _ _ _ _ _ _ P3).
           eapply same_progress_trans; eauto.
        -- rewrite C3. destruct F2 as (-> & _). destruct F1 as (-> & _).
           reflexivity.
      * pose proof (frames_upload_file _ _ _ _ _ _ _ _ E2) as F2.
        intros [= <- <-]. split.
        -- apply progresses_idle. eapply same_progress_trans; eauto.
        -- destruct F2 as (-> & _). destruct F1 as (-> & _). reflexivity.
  - pose proof (dedup_frames _ _ _ _ _ E1) as F1.
    intros [= <- <-]. split.
    + apply progresses_idle, F1.
    + destruct F1 as (-> & _). reflexivity.
Qed.

(** The equation of the last case. *)
Lemma upload_to_drive_special local_path size parent_id pb ts :
  upload_to_drive self local_path (Special size) parent_id pb ts =
    (let* st := enter api self (Special size) parent_id pb ts in
     let* _ := close_when_done api in
     ret (append_failed local_path (mk_results [] [] [] (fst st)))).
Proof. reflexivity. Qed.

(** What a nested call does to the progress tracking. *)
Lemma listing_progresses local_path folder_id ts items :
  Forall (fun entry => nested_progresses (snd entry)) items ->
  forall results (j j' : job) res,
    listing api local_path
      (fun item_path child =>
         upload_to_drive self item_path child folder_id (Some bar_of_job) ts)
      items results j = (res, j') ->
    progresses j j' (completable (Dir items)) (regular_bytes (Dir items)).
Proof.
  induction 1 as [|[item child] items Hchild _ IH]; intros results j j' res.
  - intros [= <- <-]. apply progresses_refl.
  - cbn [listing].
    change (completable (Dir ((item, child) :: items)))
      with (completable child + completable (Dir items))%N.
    change (regular_bytes (Dir ((item, child) :: items)))
      with (regular_bytes child + regular_bytes (Dir items))%N.
    destruct (upload_to_drive self (path_join local_path item) child
                folder_id (Some bar_of_job) ts j) as [[sub|e] j1] eqn:E1.
    + intros E2. apply Hchild in E1. apply IH in E2.
      exact (progresses_trans _ _ _ _ _ _ _ E1 E2).
    + intros [= <- <-]. apply Hchild in E1.
      eapply progresses_weaken; [| |exact E1]; apply N.le_add_r.
Qed.

Lemma dir_progresses local_path items parent_id pb ts (j j0 j' : job) st r :
  Forall (fun entry => nested_progresses (snd entry)) items ->
  enter api self (Dir items) parent_id pb ts j = (Ok st, j0) ->
  upload_to_drive self local_path (Dir items) parent_id pb ts j = (r, j') ->
  progresses j0 j' (completable (Dir items)) (regular_bytes (Dir items)).
Proof.
  intros Hitems Henter. rewrite upload_to_drive_dir.
  unfold bind at 1. rewrite Henter. unfold bind at 1.
  destruct (create_folder api self (basename local_path) (fst st) j0)
    as [[folder_id|e] j1] eqn:E1.
  - pose proof (frames_create_folder _ _ _ _ _ _ _ E1) as F1.
    unfold bind at 1.
    destruct (truthy folder_id).
    + unfold try_listing.
      destruct (listing api local_path _ items _ j1) as [[res e] j2] eqn:E2.
      apply (listing_progresses _ _ _ _ Hitems) in E2.
      destruct (close_progresses j2) as (j3 & E3 & P3).
      assert (Hgoal : progresses j0 j3 (completable (Dir items))
                        (regular_bytes (Dir items))).
      { apply (progresses_after_frame _ _ _ _ _ F1).
        pose proof (progresses_trans _ _ _ _ _ _ _ E2 P3) as H.
        rewrite !N.add_0_r in H. exact H. }
      destruct e; unfold bind, ret; rewrite E3; intros [= <- <-]; exact Hgoal.
    + destruct (close_progresses j1) as (j3 & E3 & P3).
      unfold bind, ret. rewrite E3. intros [= <- <-].
      apply (progresses_after_frame _ _ _ _ _ F1).
      apply (progresses_weaken _ _ 0 0); try lia. exact P3.
  - pose proof (frames_create_folder _ _ _ _ _ _ _ E1) as F1.
    intros [= <- <-]. apply progresses_idle, F1.
Qed.

Lemma upload_nested_progresses node : nested_progresses node.
Proof.
  induction node as [|file_size|items IH|size] using fs_node_rect';
    intros local_path parent_id ts j j' r.
  - intros [= <- <-]. apply progresses_refl.
  - rewrite upload_to_drive_file. unfold bind at 1. simpl.
    intros H. apply upload_leaf_progresses in H as [H _]. exact H.
  - apply (dir_progresses _ _ _ _ _ _ _ _ (parent_id, ts) _ IH).
    reflexivity.
  - rewrite upload_to_drive_special. unfold bind at 1. simpl.
    destruct (close_progresses j) as (j3 & E3 & P3).
    unfold bind, ret. rewrite E3. intros [= <- <-]. exact P3.
Qed.

(** The pre-scan counts at least what the calls can complete. *)
Lemma completable_counted node :
  (completable node <= files (count_items node))%N
  /\ (regular_bytes node <= total_size (count_items node))%N.
Proof.
  induction node as [|file_size|items IH|size] using fs_node_rect';
    try (simpl; lia).
  induction IH as [|[item child] items Hchild _ IHitems].
  - simpl. lia.
  - change (completable (Dir ((item, child) :: items)))
      with (completable child + completable (Dir items))%N.
    change (regular_bytes (Dir ((item, child) :: items)))
      with (regular_bytes child + regular_bytes (Dir items))%N.
    simpl in Hchild.
    assert (Hw : (files (count_items child)
                  + files (count_items (Dir items))
                  <= files (count_items (Dir ((item, child) :: items))))%N
                 /\ (total_size (count_items child)
                     + total_size (count_items (Dir items))
                     <= total_size
                          (count_items (Dir ((item, child) :: items))))%N).
    { destruct child; simpl; lia. }
    lia.
Qed.

(** The state a first call starts from. *)
Lemma first_call_enter node parent_id (j : job) :
  exists st j0,
    enter api self node parent_id None None j = (Ok st, j0)
    /\ progress_bar j0 = mk_tqdm (total_size (count_items node)) 0 "" false
    /\ _uploaded_size j0 = 0%N
    /\ _file_count j0 = (0%N, files (count_items node)).
Proof.
  unfold enter, bind, start_progress, ret. eexists _, _.
  split; [reflexivity|]. simpl. auto.
Qed.

Lemma first_call_progresses local_path node parent_id (j j' : job) r :
  is_missing node = false ->
  upload_to_drive self local_path node parent_id None None j = (r, j') ->
  forall st j0,
    enter api self node parent_id None None j = (Ok st, j0) ->
    progresses j0 j' (completable node) (regular_bytes node)
    /\ (forall file_size,
          node = File file_size ->
          closed (progress_bar j') = closed (progress_bar j0)).
Proof.
  intros Hm H st j0 Henter. destruct node as [|file_size|items|size];
    try discriminate.
  - rewrite upload_to_drive_file in H. unfold bind at 1 in H.
    rewrite Henter in H. apply upload_leaf_progresses in H as [H C].
    split; [exact H|]. intros ? _. exact C.
  - split; [|discriminate].
    eapply dir_progresses; eauto.
    apply Forall_forall. intros entry _. apply upload_nested_progresses.
  - split; [|discriminate].
    rewrite upload_to_drive_special in H. unfold bind at 1 in H.
    rewrite Henter in H.
    destruct (close_progresses j0) as (j3 & E3 & P3).
    unfold bind, ret in H. rewrite E3 in H. injection H as <- <-. exact P3.
Qed.



Lemma irregular_strict node :
  has_irregular node = true ->
  (completable node < files (count_items node))%N.
Proof.
  induction node as [|file_size|items IH|size] using fs_node_rect';
    try discriminate.
  induction IH as [|[item child] items Hchild _ IHitems]; [discriminate|].
  change (completable (Dir ((item, child) :: items)))
    with (completable child + completable (Dir items))%N.
  pose proof (proj1 (completable_counted child)) as Hc.
  pose proof (proj1 (completable_counted (Dir items))) as Hr.
  simpl in Hchild.
  change (has_irregular (Dir ((item, child) :: items)))
    with (match child with
          | Missing | Special _ => true
          | _ => has_irregular child
          end || has_irregular (Dir items)).
  destruct child as [|file_size|sub|size]; simpl in *; intros H.
  - lia.
  - specialize (IHitems H). lia.
  - apply orb_true_iff in H as [H|H].
    + specialize (Hchild H). lia.
    + specialize (IHitems H). lia.
  - lia.
Qed.


(** *** Without dedup *)

Lemma upload_leaf_without_dedup local_path file_size parent_id results
    (j : job) :
  skip_existing self = false ->
  exists r j',
    upload_leaf self local_path file_size parent_id results j = (Ok r, j')
    /\ skipped r = skipped results.
Proof.
  intros Hs. unfold Uploader.upload_leaf, Uploader.upload_file.
  rewrite Hs. unfold bind, ret, try_except, on_remote, advance, modify,
    logger_error.
  destruct (files_create_media api _ _ _ _ _) as [[file_id|e] d];
    [destruct (truthy file_id)|]; eexists _, _; split; reflexivity.
Qed.

Lemma create_folder_without_dedup folder_name parent_id (j : job) :
  skip_existing self = false ->
  exists folder_id j',
    create_folder api self folder_name parent_id j = (Ok folder_id, j').
Proof.
  intros Hs. unfold create_folder. rewrite Hs.
  unfold bind, ret, try_except, on_remote, logger_error, modify. simpl.
  destruct (files_create_folder api _ _ _) as [[folder_id|e] d];
    eexists _, _; reflexivity.
Qed.

Lemma listing_without_dedup local_path folder_id ts items :
  Forall (fun entry => never_skips (snd entry)) items ->
  forall results (j : job),
  exists r j',
    listing api local_path
      (fun item_path child =>
         upload_to_drive self item_path child folder_id (Some bar_of_job) ts)
      items results j = ((r, None), j')
    /\ skipped r = skipped results.
Proof.
  induction 1 as [|[item child] items Hchild _ IH]; intros results j.
  - eexists _, _. split; reflexivity.
  - cbn [listing]. simpl in Hchild.
    destruct (Hchild (path_join local_path item) folder_id (Some bar_of_job)
                ts j) as (sub & j1 & -> & Hsub).
    destruct (IH (extend results sub) j1) as (r & j2 & -> & Hr).
    eexists _, _. split; [reflexivity|]. rewrite Hr. simpl.
    rewrite Hsub. apply app_nil_r.
Qed.

Lemma enter_returns node parent_id pb ts (j : job) :
  exists st j0, enter api self node parent_id pb ts j = (Ok st, j0).
Proof.
  unfold enter, bind, start_progress, ret. destruct pb; eexists _, _;
    reflexivity.
Qed.

Lemma upload_never_skips node :
  skip_existing self = false -> never_skips node.
Proof.
  intros Hs.
  induction node as [|file_size|items IH|size] using fs_node_rect';
    intros local_path parent_id pb ts j.
  - eexists _, _. split; reflexivity.
  - rewrite upload_to_drive_file. unfold bind at 1.
    destruct (enter_returns (File file_size) parent_id pb ts j)
      as (st & j0 & ->).
    exact (upload_leaf_without_dedup local_path file_size (fst st)
             (mk_results [] [] [] (fst st)) j0 Hs).
  - rewrite upload_to_drive_dir. unfold bind at 1.
    destruct (enter_returns (Dir items) parent_id pb ts j) as (st & j0 & ->).
    unfold bind at 1.
    destruct (create_folder_without_dedup (basename local_path) (fst st) j0 Hs)
      as (folder_id & j1 & ->).
    unfold bind at 1. destruct (truthy folder_id).
    + unfold try_listing.
      destruct (listing_without_dedup local_path (default "" folder_id)
                  (snd st) items IH
                  (set_root_folder_id (default "" folder_id)
                     (mk_results [] [] [] (fst st))) j1)
        as (r & j2 & -> & Hr).
      destruct (close_progresses j2) as (j3 & E3 & _).
      unfold bind, ret. rewrite E3. eexists _, _. split; [reflexivity|].
      exact Hr.
    + destruct (close_progresses j1) as (j3 & E3 & _).
      unfold bind, ret. rewrite E3. eexists _, _. split; reflexivity.
  - rewrite upload_to_drive_special. unfold bind at 1.
    destruct (enter_returns (Special size) parent_id pb ts j)
      as (st & j0 & ->).
    destruct (close_progresses j0) as (j3 & E3 & _).
    unfold bind, ret. rewrite E3. eexists _, _. split; reflexivity.
Qed.

(** X17.  With [skip_existing] false a call makes no existence check: it
    returns an outcome whatever the Drive does, and the outcome lists no
    skipped path. *)
Theorem without_dedup_nothing_is_skipped (local_path : string)
    (node : fs_node) (parent_id : string) (pb : option tqdm_ref)
    (ts : option N) (j : job) :
  skip_existing self = false ->
  exists r j',
    upload_to_drive self local_path node parent_id pb ts j = (Ok r, j')
    /\ skipped r = [].
Proof. intros Hs. apply (upload_never_skips node Hs). Qed.

(** *** The destination *)

Lemma seedup_folder_overrides local_path node p1 p2 (j : job) :
  use_seedup_folder self = true ->
  truthy (seedup_folder_id self) = true ->
  is_missing node = false ->
  upload_to_drive self local_path node p1 None None j
  = upload_to_drive self local_path node p2 None None j.
Proof.
  intros Hu Ht Hm.
  assert (He : enter api self node p1 None None j
               = enter api self node p2 None None j).
  { unfold enter, bind, start_progress, ret. rewrite Hu, Ht. reflexivity. }
  destruct node as [|file_size|items|size]; try discriminate.
  - rewrite !upload_to_drive_file. unfold bind. rewrite He. reflexivity.
  - rewrite !upload_to_drive_dir. unfold bind at 1.
    unfold bind at 4. rewrite He. reflexivity.
  - rewrite !upload_to_drive_special. unfold bind at 1. unfold bind at 3.
    rewrite He. reflexivity.
Qed.

End Laws.

Section Account.
Variable api : DriveService.
Variable guess_type : string -> option string.
Variable IN_COLAB : bool.
Variable authenticate_user : result unit.
Variable import_uploader : result unit.
Variable files_create_in_root :
  string -> drive api -> result (option string) * drive api.

Abbreviation job := (job api).
Abbreviation __init__ :=
  (__init__ api IN_COLAB authenticate_user files_create_in_root).
Abbreviation get_or_create_seedup_folder :=
  (get_or_create_seedup_folder api files_create_in_root).
Abbreviation upload_to_google_drive :=
  (upload_to_google_drive api guess_type IN_COLAB authenticate_user
     files_create_in_root).
Abbreviation handle_upload :=
  (handle_upload api guess_type IN_COLAB authenticate_user import_uploader
     files_create_in_root).

Lemma get_drive_service_cases (j : job) :
  get_drive_service api IN_COLAB authenticate_user j = (Ok tt, j)
  \/ get_drive_service api IN_COLAB authenticate_user j
     = (Raise RuntimeError, j).
Proof.
  unfold get_drive_service, try_except, lift, raise.
  destruct IN_COLAB; [|auto]. destruct authenticate_user as [[]|e]; auto.
Qed.

Lemma get_or_create_seedup_folder_returns (j : job) :
  exists folder_id j', get_or_create_seedup_folder j = (Ok folder_id, j').
Proof.
  unfold Uploader.get_or_create_seedup_folder, try_except, bind, on_remote,
    logger_error, modify, ret.
  destruct (files_list api seedup_query (remote j)) as [[[|f l]|e] d];
    cbn; try (eexists _, _; reflexivity).
  destruct (files_create_in_root "SeedUp Downloads" d) as [[folder_id|e] d'];
    eexists _, _; reflexivity.
Qed.

Lemma init_cases skip use (j : job) :
  match __init__ skip use j with
  | (Ok self, j') =>
      skip_existing self = skip
      /\ use_seedup_folder self = use
      /\ (use = true -> truthy (seedup_folder_id self) = true)
      /\ (use = false -> seedup_folder_id self = None /\ j' = j)
  | (Raise e, _) => e = RuntimeError
  end.
Proof.
  unfold Uploader.__init__. unfold bind at 1.
  destruct (get_drive_service_cases j) as [-> | ->]; [|reflexivity].
  destruct use.
  - unfold bind at 1.
    destruct (get_or_create_seedup_folder_returns j) as (folder_id & j' & ->).
    destruct (truthy folder_id) eqn:Ht; simpl; [|reflexivity].
    split; [reflexivity|]. split; [reflexivity|]. split; [auto|discriminate].
  - simpl. split; [reflexivity|]. split; [reflexivity|].
    split; [discriminate|auto].
Qed.

(** X18.  [__init__] raises nothing but [RuntimeError].  The uploader it
    returns has the options it was given; with [use_seedup_folder] it has
    a non-empty SeedUp folder id, without it no id, and the job is as it
    was. *)
Theorem init_gives_usable_uploader (skip use : bool) (j j' : job)
    (r : result SimpleDriveUploader) :
  __init__ skip use j = (r, j') ->
  match r with
  | Ok self =>
      skip_existing self = skip
      /\ use_seedup_folder self = use
      /\ (if use then truthy (seedup_folder_id self) = true
          else seedup_folder_id self = None /\ j' = j)
  | Raise e => e = RuntimeError
  end.
Proof.
  intros H. pose proof (init_cases skip use j) as C. rewrite H in C.
  destruct r as [self|e]; [|exact C].
  destruct C as (Hs & Hu & Ht & Hn). split; [exact Hs|]. split; [exact Hu|].
  destruct use; auto.
Qed.

(** X19.  With [use_seedup_folder], which main.py never turns off, the
    folder id the caller gives has no effect on an existing path:
    [upload_to_google_drive] and [handle_upload] do the same for any two
    ids. *)
Theorem folder_id_is_ignored (path : string) (node : fs_node)
    (f1 f2 : option string) (skip no_skip : bool) (j : job) :
  is_missing node = false ->
  upload_to_google_drive path node f1 skip true j
  = upload_to_google_drive path node f2 skip true j
  /\ handle_upload path node f1 no_skip j
     = handle_upload path node f2 no_skip j.
Proof.
  intros Hm.
  assert (H : forall skip,
            upload_to_google_drive path node f1 skip true j
            = upload_to_google_drive path node f2 skip true j).
  { intros sk. unfold Uploader.upload_to_google_drive. unfold bind.
    pose proof (init_cases sk true j) as C.
    destruct (__init__ sk true j) as [[self|e] j1]; [|reflexivity].
    destruct C as (_ & Hu & Ht & _).
    apply seedup_folder_overrides; auto. }
  split; [apply H|].
  unfold Uploader.handle_upload. rewrite Hm.
  unfold try_except, bind. destruct (lift import_uploader j) as [[[]|e] j0] eqn:E;
    [|reflexivity].
  unfold lift in E. injection E as _ <-. rewrite (H (negb no_skip)).
  reflexivity.
Qed.

End Account.

Section Accounting.
Variable api : DriveService.
Variable guess_type : string -> option string.
Variable self : SimpleDriveUploader.

Abbreviation job := (job api).
Abbreviation upload_to_drive := (upload_to_drive api guess_type).
Abbreviation upload_leaf := (upload_leaf api guess_type).
Abbreviation accounts := (accounts api guess_type self).

(** Every remote folder creation succeeds. *)
Hypothesis creation_succeeds :
  forall folder_name parent_id (j : job),
  exists folder_id j',
    create_folder api self folder_name parent_id j = (Ok (Some folder_id), j')
    /\ folder_id <> "".

(** A listing fails with an HTTP error or not at all. *)
Hypothesis listing_fails_with_http :
  forall q d e d', files_list api q d = (Raise e, d') -> e = HttpError.

Lemma upload_leaf_accounts local_path file_size parent_id results (j : job) :
  exists r j',
    upload_leaf self local_path file_size parent_id results j = (Ok r, j')
    /\ counted r = (counted results + 1)%N.
Proof.
  unfold Uploader.upload_leaf. unfold bind at 1.
  assert (H : exists r j',
            (if skip_existing self
             then file_exists api (basename local_path) parent_id
             else ret None) j = (Ok r, j')).
  { destruct (skip_existing self);
      [apply (file_exists_returns api listing_fails_with_http)
      |eexists _, _; reflexivity]. }
  destruct H as (existing & j1 & ->).
  destruct existing as [f|].
  - destruct (advance_progresses api file_size j1) as (j2 & E2 & _).
    unfold bind, ret. rewrite E2. eexists _, _. split; [reflexivity|].
    unfold counted. simpl. rewrite !length_app. simpl. lia.
  - destruct (upload_file_returns api guess_type self listing_fails_with_http
                local_path parent_id j1) as (file_id & j2 & E2).
    destruct (advance_progresses api file_size j2) as (j3 & E3 & _).
    unfold bind at 1. rewrite E2. unfold bind, ret. rewrite E3.
    eexists _, _. split; [reflexivity|]. unfold counted.
    destruct (truthy file_id); simpl; rewrite !length_app; simpl; lia.
Qed.

Lemma listing_accounts local_path folder_id ts items :
  Forall (fun entry => accounts (snd entry)) items ->
  forallb (fun entry => regular (snd entry)) items = true ->
  forall results (j : job),
  exists r j',
    listing api local_path
      (fun item_path child =>
         upload_to_drive self item_path child folder_id (Some bar_of_job) ts)
      items results j = ((r, None), j')
    /\ counted r = (counted results + files (walk (Dir items)))%N.
Proof.
  induction 1 as [|[item child] items Hchild _ IH]; intros Hreg results j.
  - eexists _, _. split; [reflexivity|]. simpl. lia.
  - simpl in Hreg. apply andb_true_iff in Hreg as [Hc Hrest].
    simpl in Hchild. cbn [listing].
    destruct (Hchild Hc (path_join local_path item) folder_id
                (Some bar_of_job) ts j) as (sub & j1 & -> & Hn1).
    destruct (IH Hrest (extend results sub) j1) as (r & j2 & -> & Hn2).
    eexists _, _. split; [reflexivity|].
    rewrite (walk_cons _ _ _ Hc), Hn2, counted_extend, Hn1. lia.
Qed.

Lemma upload_accounts node : accounts node.
Proof.
  induction node as [|file_size|items IH|size] using fs_node_rect';
    intros Hreg; try discriminate; intros local_path parent_id pb ts j.
  - rewrite upload_to_drive_file. unfold bind at 1.
    destruct (enter_returns api self (File file_size) parent_id pb ts j)
      as (st & j0 & ->).
    destruct (upload_leaf_accounts local_path file_size (fst st)
                (mk_results [] [] [] (fst st)) j0) as (r & j' & E & Hn).
    exists r, j'. split; [exact E|]. rewrite Hn. reflexivity.
  - rewrite upload_to_drive_dir. unfold bind at 1.
    destruct (enter_returns api self (Dir items) parent_id pb ts j)
      as (st & j0 & ->).
    destruct (creation_succeeds (basename local_path) (fst st) j0)
      as (folder_id & j1 & E1 & Hne).
    unfold bind at 1. rewrite E1.
    assert (Ht : truthy (Some folder_id) = true).
    { simpl. apply negb_true_iff, String.eqb_neq. exact Hne. }
    rewrite Ht. simpl in Hreg.
    destruct (listing_accounts local_path folder_id (snd st) items IH Hreg
                (set_root_folder_id folder_id (mk_results [] [] [] (fst st)))
                j1) as (r & j2 & E2 & Hn2).
    unfold bind at 1. unfold try_listing. simpl default. rewrite E2.
    destruct (close_progresses api j2) as (j3 & E3 & _).
    unfold bind, ret. rewrite E3. exists r, j3. split; [reflexivity|].
    rewrite Hn2. reflexivity.
Qed.


End Accounting.
End UploadLaws.

(** ** The upload laws on inputs *)

Module UploadLawRuns.

Import Uploader MemDrive.




(** An upload with --no-skip to a Drive that holds the file already. *)
Lemma without_dedup_nothing_is_skipped_witness :
  exists r j',
    upload_to_drive (service true true) no_mime no_dedup "/data/z.bin"
      (File 0) "root" None None (idle [z_bin])
    = (Ok r, j')
    /\ skipped r = [].
Proof.
  apply (UploadLaws.without_dedup_nothing_is_skipped (service true true)
           no_mime no_dedup "/data/z.bin" (File 0) "root" None None
           (idle [z_bin])).
  reflexivity.
Defined.

(** The uploader of the command line, on an empty Drive. *)
Lemma init_gives_usable_uploader_witness :
  match fst (colab_uploader true true []) with
  | Ok self =>
      skip_existing self = true
      /\ use_seedup_folder self = true
      /\ truthy (seedup_folder_id self) = true
  | Raise e => e = RuntimeError
  end.
Proof.
  apply (UploadLaws.init_gives_usable_uploader (service true true) true
           (Ok tt) (fun name => create true true name "root") true true
           (idle []) (snd (colab_uploader true true []))
           (fst (colab_uploader true true []))).
  vm_compute. reflexivity.
Defined.

(** The command [upload -p /data/a -f abc] and the same command without
    [-f]. *)
Lemma folder_id_is_ignored_witness :
  command_upload "/data/a" small_tree (Some "abc") []
  = command_upload "/data/a" small_tree None [].
Proof.
  apply (UploadLaws.folder_id_is_ignored (service true true) no_mime true
           (Ok tt) (Ok tt) (fun name => create true true name "root")
           "/data/a" small_tree (Some "abc") None true false (idle [])).
  reflexivity.
Defined.


End UploadLawRuns.
